(** * The PEFT evaluation driver [megatron_gpt_peft_eval.py]

    A shallow embedding of [main] from
    [examples/nlp/language_modeling/tuning/megatron_gpt_peft_eval.py]
    and the properties of its orchestration flow.

    The driver is glue code: everything it calls (the configuration
    library, the trainer, the checkpoint connector, the file system) is an
    external collaborator.  A collaborator is modelled by
    - a [call] recorded in the trace of the run at the moment it is made,
    - the [World], which says whether the call raises and what it returns.
    The driver's own logic (attribute reads, comparisons, the assertions,
    the branches and loops) is translated statement by statement. *)

From stdpp Require Import gmap strings list fin_maps.
From Stdlib Require Import ZArith Ascii String.

Open Scope string_scope.
Open Scope Z_scope.

(** ** Configuration values *)

(** Scalars of a configuration tree.  Floating-point scalars are left out. *)
Inductive scalar :=
  | SNone
  | SBool (b : bool)
  | SInt (z : Z)
  | SStr (s : string).

Set Warnings "-register-all".

(** An OmegaConf node: a scalar, a [ListConfig] or a [DictConfig].
    Assigning a node into another tree copies it, so trees are values. *)
Inductive cfgval :=
  | Leaf (v : scalar)
  | Seq (l : list cfgval)
  | Dict (m : gmap string cfgval).

Definition PyNone : cfgval := Leaf SNone.
Definition PyFalse : cfgval := Leaf (SBool false).

(** Exceptions that the driver's own statements can raise, and [External]
    for whatever a collaborator raises. *)
Inductive exn :=
  | AssertionError
  | ConfigAttributeError (key : string)
  | AttributeError (key : string)
  | TypeError (what : string)
  | KeyError (key : string)
  | External (what : string).

(** [node.key]: a missing key of a [DictConfig] raises, and so does an
    attribute read on [None], a scalar or a list. *)
Definition getattr (v : cfgval) (k : string) : exn + cfgval :=
  match v with
  | Dict m =>
      match m !! k with
      | Some x => inr x
      | None => inl (ConfigAttributeError k)
      end
  | _ => inl (AttributeError k)
  end.

(** [node.k1.k2...kn], read from left to right. *)
Fixpoint attr (p : list string) (v : cfgval) : exn + cfgval :=
  match p with
  | [] => inr v
  | k :: p' =>
      match getattr v k with
      | inl e => inl e
      | inr x => attr p' x
      end
  end.

(** [node.get(key, default)]: the default is returned for a missing key. *)
Definition cfg_get (v : cfgval) (k : string) (d : cfgval) : exn + cfgval :=
  match v with
  | Dict m => inr (default d (m !! k))
  | _ => inl (AttributeError "get")
  end.

(** [node.key = x] inside [open_dict]: the key is created when absent. *)
Definition setattr (v : cfgval) (k : string) (x : cfgval) : exn + cfgval :=
  match v with
  | Dict m => inr (Dict (<[k := x]> m))
  | _ => inl (AttributeError k)
  end.

(** [node.k1...kn = x]: the prefix [node.k1...k(n-1)] is read, the last key
    is set in the node found there; the result is the updated tree. *)
Fixpoint assign (p : list string) (x : cfgval) (v : cfgval) : exn + cfgval :=
  match p with
  | [] => inr x
  | k :: p' =>
      match p' with
      | [] => setattr v k x
      | _ :: _ =>
          match getattr v k with
          | inl e => inl e
          | inr sub =>
              match assign p' x sub with
              | inl e => inl e
              | inr sub' => setattr v k sub'
              end
          end
      end
  end.

(** ** Python comparisons and truth values *)

Definition is_None (v : cfgval) : bool :=
  match v with
  | Leaf SNone => true
  | _ => false
  end.

(** [a == b] on scalars; [True == 1] and [False == 0] as in Python. *)
Definition scalar_eq (a b : scalar) : bool :=
  match a, b with
  | SNone, SNone => true
  | SBool x, SBool y => Bool.eqb x y
  | SBool x, SInt y => Z.b2z x =? y
  | SInt x, SBool y => x =? Z.b2z y
  | SInt x, SInt y => x =? y
  | SStr x, SStr y => String.eqb x y
  | _, _ => false
  end.

(** [v == lit] for a scalar literal [lit]. *)
Definition py_eq (v : cfgval) (lit : scalar) : bool :=
  match v with
  | Leaf a => scalar_eq a lit
  | _ => false
  end.

(** [v in [l1, ..., ln]] for scalar literals. *)
Definition py_in (v : cfgval) (lits : list scalar) : bool :=
  existsb (py_eq v) lits.

(** [v > n] for an integer literal [n]; not every value is ordered. *)
Definition py_gt (v : cfgval) (n : Z) : exn + bool :=
  match v with
  | Leaf (SInt z) => inr (n <? z)
  | Leaf (SBool b) => inr (n <? Z.b2z b)
  | _ => inl (TypeError ">")
  end.

(** The truth value of [v] in a condition. *)
Definition py_truthy (v : cfgval) : bool :=
  match v with
  | Leaf SNone => false
  | Leaf (SBool b) => b
  | Leaf (SInt z) => negb (z =? 0)
  | Leaf (SStr s) => negb (String.eqb s EmptyString)
  | Seq l => negb (Nat.eqb (List.length l) 0)
  | Dict m => negb (Nat.eqb (size m) 0)
  end.

(** ** Strings *)

Definition newline_char : ascii := ascii_of_nat 10.
Definition space_char : ascii := ascii_of_nat 32.
Definition NL : string := String newline_char EmptyString.

(** [s.split(sep)] for a separator of one character. *)
Fixpoint str_split (sep : ascii) (s : string) : list string :=
  match s with
  | EmptyString => [EmptyString]
  | String c s' =>
      if Ascii.eqb c sep then EmptyString :: str_split sep s'
      else
        match str_split sep s' with
        | h :: t => String c h :: t
        | [] => [String c EmptyString]
        end
  end.

(** [sep.join(l)]. *)
Fixpoint str_join (sep : string) (l : list string) : string :=
  match l with
  | [] => EmptyString
  | x :: l' =>
      match l' with
      | [] => x
      | _ :: _ => x ++ sep ++ str_join sep l'
      end
  end.

(** The line written for a sentence: [" ".join(sentence.split("\n"))]. *)
Definition flatten_sentence (sentence : string) : string :=
  str_join " " (str_split newline_char sentence).

(** The lines of a text in which every line ends with a newline. *)
Fixpoint file_lines (acc : string) (s : string) : list string :=
  match s with
  | EmptyString => []
  | String c s' =>
      if Ascii.eqb c newline_char then acc :: file_lines EmptyString s'
      else file_lines (acc ++ String c EmptyString) s'
  end.

(** Every newline replaced by one space, character by character. *)
Fixpoint newlines_to_spaces (s : string) : string :=
  match s with
  | EmptyString => EmptyString
  | String c s' =>
      String (if Ascii.eqb c newline_char then space_char else c)
             (newlines_to_spaces s')
  end.

Fixpoint has_newline (s : string) : bool :=
  match s with
  | EmptyString => false
  | String c s' => Ascii.eqb c newline_char || has_newline s'
  end.

(** ** Collaborator objects *)

(** The arguments a [GradScaler] is constructed with. *)
Record grad_scaler := GradScaler {
  init_scale : cfgval;
  growth_interval : cfgval;
  hysteresis : cfgval;
  enabled : bool
}.

(** The plugins the driver can put in the trainer's plugin list. *)
Inductive plugin :=
  | MegatronHalfPrecisionPlugin
      (precision : cfgval) (device : string) (scaler : option grad_scaler)
  | PipelineMixedPrecisionPlugin
      (precision : cfgval) (device : string) (scaler : option grad_scaler)
  | TorchElasticEnvironment.

Record strategy := NLPDDPStrategy {
  no_ddp_communication_hook : bool;
  gradient_as_bucket_view : cfgval;
  find_unused_parameters : bool
}.

Record trainer := Trainer {
  trainer_plugins : list plugin;
  trainer_strategy : strategy;
  trainer_kwargs : gmap string cfgval
}.

Record connector := PEFTSaveRestoreConnector {
  peft_model_nemo_path : cfgval;
  peft_model_ckpt_path : cfgval;
  model_extracted_dir : option cfgval
}.

(** One element of the response: a dict from field names to lists of
    strings ([batch["sentences"]] is the one the driver reads). *)
Abbreviation batch := (gmap string (list string)).

(** ** Calls to collaborators *)

Inductive call :=
  | logging_info (msg : string)
  | OmegaConf_to_yaml (c : cfgval)
  | new_NLPDDPStrategy (s : strategy)
  | new_GradScaler (g : grad_scaler)
  | new_plugin (p : plugin)
  | new_Trainer (t : trainer)
  | restore_config (restore_path : cfgval) (t : trainer)
  | new_connector (c : connector)
  | os_path_isdir (p : cfgval)
  | restore_model
      (restore_path : cfgval) (t : trainer)
      (override_config_path : cfgval) (c : connector)
  | model_freeze
  | model_build_dataset (ds_cfg : cfgval)
  | dataset_getitem (i : Z)
  | new_DataLoader (batch_size : cfgval)
  | OmegaConf_to_container (root : cfgval) (node : list string)
  | model_set_inference_config (config : cfgval)
  | trainer_predict
  | file_open (path : string)
  | file_write (path : string) (data : string).

(** What is printed on standard output: a string, or the [repr] of the
    response, which is kept as the response itself. *)
Inductive out_item :=
  | out_str (s : string)
  | out_repr (response : list batch).

(** The behaviour of the collaborators in one run. *)
Record World := {
  (** the exception a call raises, if it raises *)
  raises : call -> option exn;
  (** [OmegaConf.to_yaml] *)
  yaml_of : cfgval -> string;
  (** the configuration saved in the adapter artifact at a path *)
  saved_config : cfgval -> cfgval;
  (** [os.path.isdir] *)
  isdir : cfgval -> bool;
  (** [OmegaConf.to_container(root.node, resolve=True)] *)
  resolved : cfgval -> list string -> cfgval;
  (** [model.global_rank] of the restored model *)
  global_rank : Z;
  (** what [trainer.predict] returns in this process *)
  predictions : list batch
}.

(** ** The state of a run and its monad *)

Record state := State {
  trace : list call;
  stdout : list out_item;
  fs : gmap string string
}.

Definition M (A : Type) : Type := state -> (exn + A) * state.

Definition ret {A} (a : A) : M A := fun s => (inr a, s).

Definition throw {A} (e : exn) : M A := fun s => (inl e, s).

Definition bind {A B} (m : M A) (f : A -> M B) : M B :=
  fun s =>
    match m s with
    | (inl e, s') => (inl e, s')
    | (inr a, s') => f a s'
    end.

Declare Scope prog_scope.
Delimit Scope prog_scope with prog.
Notation "'let*' x := m 'in' k" := (bind m (fun x => k))
  (at level 10, x name, m at level 100, k at level 200) : prog_scope.
Notation "m ;; k" := (bind m (fun _ => k))
  (at level 100, k at level 200, right associativity) : prog_scope.

(** A pure computation that may raise. *)
Definition lift {A} (r : exn + A) : M A :=
  match r with
  | inl e => throw e
  | inr a => ret a
  end.

(** [assert b]. *)
Definition assert (b : bool) : M unit :=
  if b then ret tt else throw AssertionError.

Definition record (c : call) : M unit :=
  fun s => (inr tt, State (trace s ++ [c]) (stdout s) (fs s)).

(** [print(x)]. *)
Definition print (x : out_item) : M unit :=
  fun s => (inr tt, State (trace s) (stdout s ++ [x]) (fs s)).

(** [for x in l: body x]. *)
Fixpoint for_each {A} (l : list A) (body : A -> M unit) : M unit :=
  match l with
  | [] => ret tt
  | x :: l' => bind (body x) (fun _ => for_each l' body)
  end.

(** ** The driver *)

Definition stars : string := "***************************".

Section Driver.

Variable w : World.

(** A call to a collaborator: it is recorded, then raises or returns. *)
Definition ext (c : call) : M unit :=
  (record c ;;
   match raises w c with
   | Some e => throw e
   | None => ret tt
   end)%prog.

(** [open(path, "w", encoding="utf-8")]: the file is created or
    truncated.  Only string paths are modelled (no file descriptors). *)
Definition open_w (path : cfgval) : M string :=
  match path with
  | Leaf (SStr p) =>
      (ext (file_open p) ;;
       fun s => (inr p, State (trace s) (stdout s) (<[p := EmptyString]> (fs s))))%prog
  | _ => throw (TypeError "open")
  end.

(** [f.write(data)] on the file opened at [p]. *)
Definition write (p : string) (data : string) : M unit :=
  (ext (file_write p data) ;;
   fun s =>
     (inr tt,
      State (trace s) (stdout s)
            (<[p := (default EmptyString (fs s !! p) ++ data)%string]> (fs s))))%prog.

(** [batch["sentences"]]. *)
Definition getitem (b : batch) (k : string) : exn + list string :=
  match b !! k with
  | Some l => inr l
  | None => inl (KeyError k)
  end.

(** The argument of [{}] in ["predictions saved to {}".format(path)];
    [path] is a string there, since [open] has accepted it. *)
Definition format_path (path : cfgval) : string :=
  match path with
  | Leaf (SStr p) => p
  | _ => EmptyString
  end.

(** [**node] in a call that also passes [plugins] and [strategy]. *)
Definition as_kwargs (v : cfgval) : exn + gmap string cfgval :=
  match v with
  | Dict m =>
      match m !! "plugins"%string, m !! "strategy"%string with
      | None, None => inr m
      | _, _ => inl (TypeError "multiple values for keyword argument")
      end
  | _ => inl (TypeError "argument after ** must be a mapping")
  end.

(** Lines 83-97: the numeric precision plugin appended to [plugins]. *)
Definition append_precision_plugin
    (cfg megatron_amp_o2 : cfgval) (with_distributed_adam : bool)
    (plugins : list plugin) : M (list plugin) :=
  (let* precision := lift (attr ["trainer"; "precision"]%string cfg) in
   if py_in precision [SInt 16; SStr "bf16"] then
     let* precision := lift (attr ["trainer"; "precision"]%string cfg) in
     let* scaler :=
       (if py_eq precision (SInt 16) then
          let* model := lift (getattr cfg "model") in
          let* init_scale :=
            lift (cfg_get model "native_amp_init_scale" (Leaf (SInt (2 ^ 32)))) in
          let* model := lift (getattr cfg "model") in
          let* growth_interval :=
            lift (cfg_get model "native_amp_growth_interval" (Leaf (SInt 1000))) in
          let* model := lift (getattr cfg "model") in
          let* hysteresis := lift (cfg_get model "hysteresis" (Leaf (SInt 2))) in
          let* pp :=
            lift (attr ["model"; "pipeline_model_parallel_size"]%string cfg) in
          let* gt := lift (py_gt pp 1) in
          let scaler :=
            GradScaler init_scale growth_interval hysteresis
                       (if gt then false else true) in
          ext (new_GradScaler scaler) ;;
          ret (Some scaler)
        else ret None) in
     if py_truthy megatron_amp_o2 && negb with_distributed_adam then
       let* precision := lift (attr ["trainer"; "precision"]%string cfg) in
       let p := MegatronHalfPrecisionPlugin precision "cuda" scaler in
       ext (new_plugin p) ;;
       ret (plugins ++ [p])%list
     else
       let* precision := lift (attr ["trainer"; "precision"]%string cfg) in
       let p := PipelineMixedPrecisionPlugin precision "cuda" scaler in
       ext (new_plugin p) ;;
       ret (plugins ++ [p])%list
   else ret plugins)%prog.

(** Lines 143-152: what the coordinating process does with the response. *)
Definition output_step (cfg : cfgval) (response : list batch) : M unit :=
  (print (out_str stars) ;;
   let* outfile_path := lift (attr ["inference"; "outfile_path"]%string cfg) in
   if negb (is_None outfile_path) then
     let* f := open_w outfile_path in
     for_each response (fun batch =>
       let* sentences := lift (getitem batch "sentences") in
       for_each sentences (fun sentence =>
         let s := flatten_sentence sentence in
         write f (s ++ NL)%string)) ;;
     let* outfile_path := lift (attr ["inference"; "outfile_path"]%string cfg) in
     print (out_str ("predictions saved to " ++ format_path outfile_path)%string)
   else print (out_repr response))%prog.

(** Lines 69-153. *)
Definition main (cfg : cfgval) : M unit :=
  (ext (logging_info
          (NL ++ NL ++ "************** Experiment configuration ***********")%string) ;;
   ext (OmegaConf_to_yaml cfg) ;;
   ext (logging_info (NL ++ yaml_of w cfg)%string) ;;
   let* base_path := lift (attr ["model"; "restore_from_path"]%string cfg) in
   assert (negb (is_None base_path)) ;;
   let* peft_path := lift (attr ["model"; "peft"; "restore_from_path"]%string cfg) in
   assert (negb (is_None peft_path)) ;;
   let* model := lift (getattr cfg "model") in
   let* megatron_amp_o2 := lift (cfg_get model "megatron_amp_O2" PyFalse) in
   let with_distributed_adam := false in
   let plugins := @nil plugin in
   let* bucket_view := lift (attr ["model"; "gradient_as_bucket_view"]%string cfg) in
   let strategy := NLPDDPStrategy true bucket_view false in
   ext (new_NLPDDPStrategy strategy) ;;
   let* plugins :=
     append_precision_plugin cfg megatron_amp_o2 with_distributed_adam plugins in
   let* cluster_type := lift (cfg_get cfg "cluster_type" PyNone) in
   let* plugins :=
     (if py_eq cluster_type (SStr "BCP") then
        ext (new_plugin TorchElasticEnvironment) ;;
        ret (plugins ++ [TorchElasticEnvironment])%list
      else ret plugins) in
   let* trainer_cfg := lift (getattr cfg "trainer") in
   let* kwargs := lift (as_kwargs trainer_cfg) in
   let trainer := Trainer plugins strategy kwargs in
   ext (new_Trainer trainer) ;;
   let* peft_path := lift (attr ["model"; "peft"; "restore_from_path"]%string cfg) in
   ext (restore_config peft_path trainer) ;;
   let peft_model_cfg := saved_config w peft_path in
   (* with open_dict(peft_model_cfg) *)
   let* precision := lift (attr ["trainer"; "precision"]%string cfg) in
   let* peft_model_cfg := lift (assign ["precision"]%string precision peft_model_cfg) in
   let* test_ds := lift (attr ["model"; "data"; "test_ds"]%string cfg) in
   let* peft_model_cfg :=
     lift (assign ["data"; "test_ds"]%string test_ds peft_model_cfg) in
   (* with open_dict(cfg) *)
   let* add_bos := lift (attr ["data"; "test_ds"; "add_bos"]%string peft_model_cfg) in
   let* cfg := lift (assign ["inference"; "add_BOS"]%string add_bos cfg) in
   let* tokens_to_generate :=
     lift (attr ["data"; "test_ds"; "tokens_to_generate"]%string peft_model_cfg) in
   let* cfg :=
     lift (assign ["inference"; "tokens_to_generate"]%string tokens_to_generate cfg) in
   let* peft_path := lift (attr ["model"; "peft"; "restore_from_path"]%string cfg) in
   let save_restore_connector := PEFTSaveRestoreConnector peft_path PyNone None in
   ext (new_connector save_restore_connector) ;;
   let* saved_path := lift (attr ["restore_from_path"]%string peft_model_cfg) in
   ext (os_path_isdir saved_path) ;;
   let* save_restore_connector :=
     (if isdir w saved_path then
        let* base_path := lift (attr ["model"; "restore_from_path"]%string cfg) in
        ret (PEFTSaveRestoreConnector
               (peft_model_nemo_path save_restore_connector)
               (peft_model_ckpt_path save_restore_connector)
               (Some base_path))
      else ret save_restore_connector) in
   let* base_path := lift (attr ["model"; "restore_from_path"]%string cfg) in
   ext (restore_model base_path trainer peft_model_cfg save_restore_connector) ;;
   ext model_freeze ;;
   let* test_ds := lift (attr ["data"; "test_ds"]%string peft_model_cfg) in
   ext (model_build_dataset test_ds) ;;
   ext (dataset_getitem 0) ;;
   let* batch_size :=
     lift (attr ["data"; "test_ds"; "global_batch_size"]%string peft_model_cfg) in
   ext (dataset_getitem 0) ;;
   ext (new_DataLoader batch_size) ;;
   lift (getattr cfg "inference") ;;
   ext (OmegaConf_to_container cfg ["inference"%string]) ;;
   let config := resolved w cfg ["inference"%string] in
   ext (model_set_inference_config config) ;;
   ext trainer_predict ;;
   let response := predictions w in
   (if global_rank w =? 0 then output_step cfg response else ret tt) ;;
   print (out_str stars))%prog.

(** A run of the driver from an empty trace, an empty standard output
    and the file system [files]. *)
Definition run (cfg : cfgval) (files : gmap string string) : (exn + unit) * state :=
  main cfg (State [] [] files).

End Driver.

(** Two attribute paths diverge when they differ at some key before
    either of them ends. *)
Fixpoint diverge (p q : list string) : bool :=
  match p, q with
  | k :: p', k' :: q' => if String.eqb k k' then diverge p' q' else true
  | _, _ => false
  end.

(** ** Predicates on calls and weakest preconditions *)

(** Logging calls (lines 70-71). *)
Definition is_logging (c : call) : Prop :=
  match c with
  | logging_info _ | OmegaConf_to_yaml _ => True
  | _ => False
  end.

(** Construction of a strategy, a loss scaler, a plugin, a trainer, a
    dataset or a dataloader. *)
Definition is_construction (c : call) : bool :=
  match c with
  | new_NLPDDPStrategy _ | new_GradScaler _ | new_plugin _ | new_Trainer _
  | model_build_dataset _ | dataset_getitem _ | new_DataLoader _ => true
  | _ => false
  end.

(** Calls on the output file. *)
Definition is_file_call (c : call) : Prop :=
  match c with
  | file_open _ | file_write _ _ => True
  | _ => False
  end.

(** [wp m Q s]: running [m] from [s] ends in a result and a state that
    satisfy [Q]. *)
Definition wp {A} (m : M A) (Q : exn + A → state → Prop) (s : state) : Prop :=
  Q (m s).1 (m s).2.

(** [strip_prefix p q] is what is left of [q] after its prefix [p]. *)
Fixpoint strip_prefix (p q : list string) : option (list string) :=
  match p, q with
  | [], _ => Some q
  | k :: p', k' :: q' => if String.eqb k k' then strip_prefix p' q' else None
  | _ :: _, [] => None
  end.

(** [appends R m]: [m] only appends calls that satisfy [R] to the trace. *)
Definition appends (R : call → Prop) {A} (m : M A) : Prop :=
  ∀ s, ∃ evs, trace (m s).2 = (trace s ++ evs)%list ∧ Forall R evs.

(** An invariant of a run: a property of every call made, of every item
    printed, and of the file system. *)
Record invariant := Invariant {
  on_call : call → Prop;
  on_out : out_item → Prop;
  on_fs : gmap string string → Prop
}.

Definition holds (I : invariant) (s : state) : Prop :=
  Forall (on_call I) (trace s) ∧ Forall (on_out I) (stdout s) ∧ on_fs I (fs s).

(** [safe I m]: running [m] keeps the invariant, whether [m] returns or
    raises. *)
Definition safe (I : invariant) {A} (m : M A) : Prop :=
  ∀ s, holds I s → holds I (m s).2.

(** An invariant on the calls alone. *)
Definition calls (R : call → Prop) : invariant :=
  Invariant R (λ _, True) (λ _, True).

(** The numeric precision plugins of a plugin list. *)
Definition is_precision_plugin (p : plugin) : bool :=
  match p with
  | MegatronHalfPrecisionPlugin _ _ _ | PipelineMixedPrecisionPlugin _ _ _ => true
  | TorchElasticEnvironment => false
  end.

Definition precision_plugins (l : list plugin) : list plugin :=
  List.filter is_precision_plugin l.

(** The [scaler] argument a plugin was constructed with. *)
Definition plugin_scaler (p : plugin) : option grad_scaler :=
  match p with
  | MegatronHalfPrecisionPlugin _ _ scaler
  | PipelineMixedPrecisionPlugin _ _ scaler => scaler
  | TorchElasticEnvironment => None
  end.

(** The trainers and the loss scalers constructed in a trace. *)
Fixpoint trainers (tr : list call) : list trainer :=
  match tr with
  | [] => []
  | new_Trainer t :: tr' => t :: trainers tr'
  | _ :: tr' => trainers tr'
  end.

Fixpoint scalers (tr : list call) : list grad_scaler :=
  match tr with
  | [] => []
  | new_GradScaler g :: tr' => g :: scalers tr'
  | _ :: tr' => scalers tr'
  end.

(** What C6 says of the plugin list of a trainer [t] built from [cfg]. *)
Definition selects_precision_plugin (cfg : cfgval) (t : trainer) : Prop :=
  ∃ precision model megatron_amp_o2,
    attr ["trainer"; "precision"]%string cfg = inr precision ∧
    getattr cfg "model" = inr model ∧
    cfg_get model "megatron_amp_O2" PyFalse = inr megatron_amp_o2 ∧
    ((precision = Leaf (SInt 16) ∨ precision = Leaf (SStr "bf16")) ∧
     (∃ scaler,
        precision_plugins (trainer_plugins t) =
        [if py_truthy megatron_amp_o2
         then MegatronHalfPrecisionPlugin precision "cuda" scaler
         else PipelineMixedPrecisionPlugin precision "cuda" scaler])
     ∨ ¬ (precision = Leaf (SInt 16) ∨ precision = Leaf (SStr "bf16")) ∧
       precision_plugins (trainer_plugins t) = []).

(** The adapter configuration [pc] carries the run-time overrides of [cfg]. *)
Definition overrides_propagated (cfg pc : cfgval) : Prop :=
  ∃ precision test_ds,
    attr ["trainer"; "precision"]%string cfg = inr precision ∧
    attr ["precision"%string] pc = inr precision ∧
    attr ["model"; "data"; "test_ds"]%string cfg = inr test_ds ∧
    attr ["data"; "test_ds"]%string pc = inr test_ds.

(** The inference configuration [config] pushed into the model in a run on
    [cfg]: the values of [data.test_ds] of the patched adapter configuration
    [pc] are written over [inference.add_BOS] and
    [inference.tokens_to_generate], and the result [root] is resolved. *)
Definition pushed_inference_config (w : World) (cfg config : cfgval) : Prop :=
  ∃ peft_path precision test_ds pc1 pc add_bos tokens cfg1 root,
    attr ["model"; "peft"; "restore_from_path"]%string cfg = inr peft_path ∧
    attr ["trainer"; "precision"]%string cfg = inr precision ∧
    assign ["precision"%string] precision (saved_config w peft_path) = inr pc1 ∧
    attr ["model"; "data"; "test_ds"]%string cfg = inr test_ds ∧
    assign ["data"; "test_ds"]%string test_ds pc1 = inr pc ∧
    attr ["data"; "test_ds"; "add_bos"]%string pc = inr add_bos ∧
    assign ["inference"; "add_BOS"]%string add_bos cfg = inr cfg1 ∧
    attr ["data"; "test_ds"; "tokens_to_generate"]%string pc = inr tokens ∧
    assign ["inference"; "tokens_to_generate"]%string tokens cfg1 = inr root ∧
    attr ["inference"; "add_BOS"]%string root = inr add_bos ∧
    attr ["inference"; "tokens_to_generate"]%string root = inr tokens ∧
    config = resolved w root ["inference"%string].

(** The invariant of a process that does not write output. *)
Definition writes_nothing (files : gmap string string) : invariant :=
  Invariant (λ c, ¬ is_file_call c) (λ o, o = out_str stars) (λ f, f = files).

(** The invariant of a run that creates no file. *)
Definition creates_no_file (files : gmap string string) : invariant :=
  Invariant (λ c, ¬ is_file_call c) (λ _, True) (λ f, f = files).

(** [enabled] of a [GradScaler] is the negation of
    [cfg.model.pipeline_model_parallel_size > 1]. *)
Definition enabled_unless_pipeline_parallel (cfg : cfgval) (g : grad_scaler) : Prop :=
  ∃ pp gt,
    attr ["model"; "pipeline_model_parallel_size"]%string cfg = inr pp ∧
    py_gt pp 1 = inr gt ∧
    enabled g = negb gt.

(** What C4 says, as the code has it, of a trace and a trainer in it: a
    loss scaler was constructed, enabled unless the pipeline-parallel size
    is above 1, and it is the scaler of the trainer's precision plugin. *)
Definition scaler_constructed (cfg : cfgval) (tr : list call) (t : trainer) : Prop :=
  ∃ g, new_GradScaler g ∈ tr ∧
       enabled_unless_pipeline_parallel cfg g ∧
       ∃ p, precision_plugins (trainer_plugins t) = [p] ∧
            plugin_scaler p = Some g.

(** Every trainer of a trace was constructed after a loss scaler that is
    enabled unless the model is pipeline parallel, and holds it in its
    precision plugin. *)
Definition scaler_history (cfg : cfgval) (tr : list call) : Prop :=
  ∀ t, t ∈ trainers tr →
    ∃ g, g ∈ scalers tr ∧
         enabled_unless_pipeline_parallel cfg g ∧
         ∃ p, precision_plugins (trainer_plugins t) = [p] ∧
              plugin_scaler p = Some g.

(** The sentences of a response in batch-then-item order, when every
    batch has them, and the text of the file that holds one line for each. *)
Fixpoint all_sentences (response : list batch) : option (list string) :=
  match response with
  | [] => Some []
  | b :: response' =>
      match b !! "sentences"%string, all_sentences response' with
      | Some l, Some ls => Some (l ++ ls)%list
      | _, _ => None
      end
  end.

Fixpoint render_lines (sentences : list string) : string :=
  match sentences with
  | [] => EmptyString
  | sentence :: sentences' =>
      (newlines_to_spaces sentence ++ NL ++ render_lines sentences')%string
  end.

(** ** Monitors of the calls of a run *)

(** A monitor watches the calls of a run in order: in ghost state [g] a
    call [c] must be [allowed], and takes the monitor to [next g c]. *)
Record monitor (G : Type) := Monitor {
  allowed : G → call → Prop;
  next : G → call → G
}.
Arguments allowed {G} _ _ _.
Arguments next {G} _ _ _.

(** The monitor started in [g] allows every call of [tr] in turn. *)
Fixpoint accepts {G} (mo : monitor G) (g : G) (tr : list call) : Prop :=
  match tr with
  | [] => True
  | c :: tr' => allowed mo g c ∧ accepts mo (next mo g c) tr'
  end.

(** The ghost state after the calls of [tr]. *)
Definition ghost {G} (mo : monitor G) (g : G) (tr : list call) : G :=
  foldl (next mo) g tr.

(** [monitored mo g0 g m]: from a trace accepted so far, with the monitor
    now in [g], the trace of [m] is accepted too, however [m] ends. *)
Definition monitored {G} (mo : monitor G) (g0 g : G) {A} (m : M A) : Prop :=
  ∀ s, accepts mo g0 (trace s) → ghost mo g0 (trace s) = g →
       accepts mo g0 (trace (m s).2).

(** The stages of the pipeline that every run goes through in order, as
    far as it gets; logging, the optional constructions, indexing of the
    dataset and the calls on the output file are not stages. *)
Definition milestone (c : call) : option nat :=
  match c with
  | new_NLPDDPStrategy _ => Some 0%nat
  | new_Trainer _ => Some 1%nat
  | restore_config _ _ => Some 2%nat
  | new_connector _ => Some 3%nat
  | os_path_isdir _ => Some 4%nat
  | restore_model _ _ _ _ => Some 5%nat
  | model_freeze => Some 6%nat
  | model_build_dataset _ => Some 7%nat
  | new_DataLoader _ => Some 8%nat
  | OmegaConf_to_container _ _ => Some 9%nat
  | model_set_inference_config _ => Some 10%nat
  | trainer_predict => Some 11%nat
  | _ => None
  end.

Definition milestones (tr : list call) : list nat := omap milestone tr.

(** The monitor of the stages: stage [k] is allowed when the stages before
    it, and no other, have been passed. *)
Definition stage_monitor : monitor nat :=
  Monitor nat
    (λ k c, match milestone c with Some j => j = k | None => True end)
    (λ k c, match milestone c with Some _ => S k | None => k end).

(** In the trace [tr], every call that satisfies [Q] comes after a call
    that satisfies [P]. *)
Definition preceded_by (P Q : call → Prop) (tr : list call) : Prop :=
  ∀ i c, tr !! i = Some c → Q c →
         ∃ j c', (j < i)%nat ∧ tr !! j = Some c' ∧ P c'.

(** The monitor of the trainer: one is constructed at most, and a
    restoration is given the one that was constructed. *)
Definition trainer_monitor : monitor (option trainer) :=
  Monitor (option trainer)
    (λ g c, match c with
            | new_Trainer _ => g = None
            | restore_config _ t | restore_model _ t _ _ => g = Some t
            | _ => True
            end)
    (λ g c, match c with
            | new_Trainer t => Some t
            | _ => g
            end).

(** The trainer a restoration is given. *)
Definition restored_with (c : call) : option trainer :=
  match c with
  | restore_config _ t | restore_model _ t _ _ => Some t
  | _ => None
  end.

(** What a [Trainer] is constructed with: the strategy of lines 78-82, and
    the entries of [cfg.trainer] as keyword arguments. *)
Definition trainer_from_cfg (cfg : cfgval) (t : trainer) : Prop :=
  ∃ bucket_view,
    attr ["model"; "gradient_as_bucket_view"]%string cfg = inr bucket_view ∧
    trainer_strategy t = NLPDDPStrategy true bucket_view false ∧
    attr ["trainer"%string] cfg = inr (Dict (trainer_kwargs t)) ∧
    trainer_kwargs t !! "plugins"%string = None ∧
    trainer_kwargs t !! "strategy"%string = None.

(** What a [GradScaler] is constructed with: the values of [cfg.model], or
    [2 ** 32], [1000] and [2] for the keys that are missing. *)
Definition scaler_from_cfg (cfg : cfgval) (g : grad_scaler) : Prop :=
  attr ["trainer"; "precision"]%string cfg = inr (Leaf (SInt 16)) ∧
  ∃ m, getattr cfg "model" = inr (Dict m) ∧
       init_scale g =
         default (Leaf (SInt 4294967296)) (m !! "native_amp_init_scale"%string) ∧
       growth_interval g =
         default (Leaf (SInt 1000)) (m !! "native_amp_growth_interval"%string) ∧
       hysteresis g = default (Leaf (SInt 2)) (m !! "hysteresis"%string).

(** What the two restorations are called with. *)
Definition restore_from_cfg (w : World) (cfg : cfgval) (c : call) : Prop :=
  match c with
  | restore_config restore_path _ =>
      attr ["model"; "peft"; "restore_from_path"]%string cfg = inr restore_path ∧
      is_None restore_path = false
  | restore_model restore_path _ _ conn =>
      attr ["model"; "restore_from_path"]%string cfg = inr restore_path ∧
      is_None restore_path = false ∧
      ∃ peft_path saved_path,
        attr ["model"; "peft"; "restore_from_path"]%string cfg = inr peft_path ∧
        is_None peft_path = false ∧
        peft_model_nemo_path conn = peft_path ∧
        peft_model_ckpt_path conn = PyNone ∧
        attr ["restore_from_path"%string] (saved_config w peft_path) =
          inr saved_path ∧
        model_extracted_dir conn =
          (if isdir w saved_path then Some restore_path else None)
  | _ => True
  end.




(** The adapter configuration [pc] is the saved one but for [precision]
    and [data.test_ds]. *)
Definition adapter_config_patched (w : World) (cfg pc : cfgval) : Prop :=
  ∃ peft_path,
    attr ["model"; "peft"; "restore_from_path"]%string cfg = inr peft_path ∧
    ∀ q, diverge ["precision"%string] q = true →
         diverge ["data"; "test_ds"]%string q = true →
         attr q pc = attr q (saved_config w peft_path).


(** Nothing has been constructed but the strategy. *)
Definition only_strategy_constructed (tr : list call) : Prop :=
  Forall (λ c, is_construction c = true → ∃ st, c = new_NLPDDPStrategy st) tr.

(** Every call of [tr] has returned. *)
Definition returned (w : World) (tr : list call) : Prop :=
  Forall (λ c, raises w c = None) tr.

(** [m] catches nothing: run after calls that have returned, either every
    call made has returned, or the last call made has raised and [m]
    raises its exception. *)
Definition uncaught (w : World) {A} (m : M A) : Prop :=
  ∀ s, returned w (trace s) →
    returned w (trace (m s).2) ∨
    ∃ tr c e, trace (m s).2 = (tr ++ [c])%list ∧ returned w tr ∧
              raises w c = Some e ∧ (m s).1 = inl e.

(** The collaborators of [w], but [trainer.predict] raises [e]. *)
Definition predict_raises (w : World) (e : exn) : World :=
  {| raises := λ c, match c with
                    | trainer_predict => Some e
                    | _ => raises w c
                    end;
     yaml_of := yaml_of w;
     saved_config := saved_config w;
     isdir := isdir w;
     resolved := resolved w;
     global_rank := global_rank w;
     predictions := predictions w |}.

(** ** A concrete run *)

Module Sample.

Definition test_ds : cfgval :=
  Dict (<["add_bos" := Leaf (SBool false)]>
        (<["tokens_to_generate" := Leaf (SInt 32)]>
        (<["global_batch_size" := Leaf (SInt 4)]> ∅))).

(** A configuration with both restore paths, precision [precision],
    pipeline-parallel size [pp] and output path [outfile]. *)
Definition config (precision pp outfile : cfgval) (o2 : bool) : cfgval :=
  Dict (<["model" :=
           Dict (<["restore_from_path" := Leaf (SStr "base.nemo")]>
                 (<["peft" := Dict (<["restore_from_path" := Leaf (SStr "lora.nemo")]> ∅)]>
                 (<["megatron_amp_O2" := Leaf (SBool o2)]>
                 (<["gradient_as_bucket_view" := Leaf (SBool false)]>
                 (<["pipeline_model_parallel_size" := pp]>
                 (<["data" := Dict (<["test_ds" := test_ds]> ∅)]> ∅))))))]>
        (<["trainer" := Dict (<["precision" := precision]>
                             (<["devices" := Leaf (SInt 1)]> ∅))]>
        (<["inference" :=
             Dict (<["outfile_path" := outfile]>
                   (<["add_BOS" := Leaf (SBool true)]>
                   (<["tokens_to_generate" := Leaf (SInt 7)]> ∅)))]> ∅))).

Definition response : list batch :=
  [ {[ "sentences" := ["alpha"; ("be" ++ NL ++ "ta")%string] ]};
    {[ "sentences" := ["gamma"; "delta"] ]} ].

(** Collaborators that never raise; the process has rank [rank]. *)
Definition world (rank : Z) : World :=
  {| raises := fun _ => None;
     yaml_of := fun _ => "yaml"%string;
     saved_config := fun _ =>
       Dict (<["restore_from_path" := Leaf (SStr "base.nemo")]>
             (<["precision" := Leaf (SInt 32)]>
             (<["data" := Dict ∅]> ∅)));
     isdir := fun _ => false;
     resolved := fun root node =>
       match attr node root with
       | inr v => v
       | inl _ => PyNone
       end;
     global_rank := rank;
     predictions := response |}.

End Sample.

(** * Properties *)

(** ** Reads and writes of configuration trees *)

Lemma getattr_setattr_eq v k x v' :
  setattr v k x = inr v' → getattr v' k = inr x.
Proof.
  destruct v; simpl; intros H; inversion H; subst; simpl.
  by rewrite lookup_insert_eq.
Qed.

Lemma getattr_setattr_ne v k k' x v' :
  setattr v k x = inr v' → k ≠ k' → getattr v' k' = getattr v k'.
Proof.
  destruct v; simpl; intros H Hne; inversion H; subst; simpl.
  by rewrite lookup_insert_ne.
Qed.

Lemma assign_cons_cons k k2 p x v :
  assign (k :: k2 :: p) x v =
  match getattr v k with
  | inl e => inl e
  | inr sub =>
      match assign (k2 :: p) x sub with
      | inl e => inl e
      | inr sub' => setattr v k sub'
      end
  end.
Proof. reflexivity. Qed.

(** After [node.p = x] the read [node.p] gives [x]. *)
Lemma attr_assign_same p x v v' :
  p ≠ [] → assign p x v = inr v' → attr p v' = inr x.
Proof.
  revert v v'. induction p as [|k p IH]; intros v v' Hp H; [done|].
  destruct p as [|k2 p].
  - simpl in *. by rewrite (getattr_setattr_eq _ _ _ _ H).
  - rewrite assign_cons_cons in H.
    destruct (getattr v k) as [e|sub] eqn:Hg; [done|].
    destruct (assign (k2 :: p) x sub) as [e|sub'] eqn:Ha; [done|].
    change (attr (k :: k2 :: p) v') with
      (match getattr v' k with inl e => inl e | inr y => attr (k2 :: p) y end).
    rewrite (getattr_setattr_eq _ _ _ _ H). by apply (IH sub).
Qed.

(** [node.p = x] leaves the read of every diverging path as it was. *)
Lemma attr_assign_diverge p q x v v' :
  assign p x v = inr v' → diverge p q = true → attr q v' = attr q v.
Proof.
  revert q v v'. induction p as [|k p IH]; intros q v v' H Hd; [done|].
  destruct q as [|k' q]; [done|]. simpl in Hd.
  destruct (String.eqb_spec k k') as [<-|Hne].
  - destruct p as [|k2 p]; [by destruct q|].
    rewrite assign_cons_cons in H.
    destruct (getattr v k) as [e|sub] eqn:Hg; [done|].
    destruct (assign (k2 :: p) x sub) as [e|sub'] eqn:Ha; [done|].
    simpl. rewrite (getattr_setattr_eq _ _ _ _ H), Hg. by apply (IH q sub).
  - assert (getattr v' k' = getattr v k') as Hk.
    { destruct p as [|k2 p].
      - by apply (getattr_setattr_ne _ _ _ _ _ H).
      - rewrite assign_cons_cons in H.
        destruct (getattr v k) as [e|sub]; [done|].
        destruct (assign (k2 :: p) x sub) as [e|sub']; [done|].
        by apply (getattr_setattr_ne _ _ _ _ _ H). }
    simpl. by rewrite Hk.
Qed.

Lemma attr_app p q v :
  attr (p ++ q) v =
  match attr p v with
  | inl e => inl e
  | inr x => attr q x
  end.
Proof.
  revert v. induction p as [|k p IH]; intros v; [done|].
  simpl. destruct (getattr v k); [done|]. apply IH.
Qed.

(** After [node.p = x] a read below [p] is a read in [x]. *)
Lemma attr_assign_under p q r x v v' :
  assign p x v = inr v' → p ≠ [] → strip_prefix p q = Some r →
  attr q v' = attr r x.
Proof.
  intros Ha Hp Hs.
  assert (q = (p ++ r)%list) as ->.
  { clear Ha Hp. revert q Hs. induction p as [|k p IH]; intros q Hs.
    - simpl in Hs. by inversion Hs.
    - destruct q as [|k' q]; [done|]. simpl in Hs.
      destruct (String.eqb_spec k k') as [<-|]; [|done].
      simpl. f_equal. by apply IH. }
  by rewrite attr_app, (attr_assign_same p x v v' Hp Ha).
Qed.

(** ** Python comparisons, characterised *)

Lemma py_eq_str v s : py_eq v (SStr s) = true ↔ v = Leaf (SStr s).
Proof.
  split; [|intros ->; simpl; apply String.eqb_refl].
  destruct v as [[| | |s']| |]; simpl; try done.
  intros H. apply String.eqb_eq in H. by subst.
Qed.

Lemma py_eq_16 v : py_eq v (SInt 16) = true ↔ v = Leaf (SInt 16).
Proof.
  split; [|by intros ->].
  destruct v as [[|[]|z|]| |]; simpl; try done.
  intros H. apply Z.eqb_eq in H. by subst.
Qed.

(** [precision in [16, "bf16"]] holds for the integer 16 and the string
    ["bf16"] and for nothing else. *)
Lemma py_in_16_bf16 v :
  py_in v [SInt 16; SStr "bf16"] = true ↔
  v = Leaf (SInt 16) ∨ v = Leaf (SStr "bf16").
Proof.
  unfold py_in. simpl. rewrite orb_false_r, orb_true_iff.
  by rewrite py_eq_16, py_eq_str.
Qed.

(** ** Rules of the weakest precondition *)

Lemma wp_ret {A} (a : A) Q s : Q (inr a) s → wp (ret a) Q s.
Proof. done. Qed.

Lemma wp_throw {A} e (Q : exn + A → state → Prop) s :
  Q (inl e) s → wp (throw e) Q s.
Proof. done. Qed.

Lemma wp_bind {A B} (m : M A) (f : A → M B) Q s :
  wp m (λ r s', match r with
                | inl e => Q (inl e) s'
                | inr a => wp (f a) Q s'
                end) s →
  wp (bind m f) Q s.
Proof. unfold wp, bind. by destruct (m s) as [[e|a] s']. Qed.

Lemma wp_lift {A} (r : exn + A) Q s :
  match r with
  | inl e => Q (inl e) s
  | inr a => Q (inr a) s
  end → wp (lift r) Q s.
Proof. by destruct r. Qed.

Lemma wp_assert (b : bool) Q s :
  (if b then Q (inr ()) s else Q (inl AssertionError) s) → wp (assert b) Q s.
Proof. by destruct b. Qed.

Lemma wp_print x Q s :
  Q (inr ()) (State (trace s) (stdout s ++ [x]) (fs s)) → wp (print x) Q s.
Proof. done. Qed.

Lemma wp_ext w c Q s :
  match raises w c with
  | Some e => Q (inl e) (State (trace s ++ [c]) (stdout s) (fs s))
  | None => Q (inr ()) (State (trace s ++ [c]) (stdout s) (fs s))
  end → wp (ext w c) Q s.
Proof. unfold wp, ext, bind, record. simpl. by destruct (raises w c). Qed.

Lemma wp_open_w w p Q s :
  match raises w (file_open p) with
  | Some e => Q (inl e) (State (trace s ++ [file_open p]) (stdout s) (fs s))
  | None =>
      Q (inr p) (State (trace s ++ [file_open p]) (stdout s)
                       (<[p := EmptyString]> (fs s)))
  end → wp (open_w w (Leaf (SStr p))) Q s.
Proof.
  unfold wp, open_w, ext, bind, record. simpl.
  by destruct (raises w (file_open p)).
Qed.

Lemma wp_write w p data Q s :
  match raises w (file_write p data) with
  | Some e =>
      Q (inl e) (State (trace s ++ [file_write p data]) (stdout s) (fs s))
  | None =>
      Q (inr ()) (State (trace s ++ [file_write p data]) (stdout s)
                  (<[p := (default EmptyString (fs s !! p) ++ data)%string]> (fs s)))
  end → wp (write w p data) Q s.
Proof.
  unfold wp, write, ext, bind, record. simpl.
  by destruct (raises w (file_write p data)).
Qed.

(** The head of the program is run for one step; a read or a call whose
    outcome is not known yet is split into its two outcomes. *)
Ltac wp_case r :=
  lazymatch r with
  | inl _ => idtac
  | inr _ => idtac
  | Some _ => idtac
  | None => idtac
  | _ => let E := fresh "E" in destruct r eqn:E
  end.

(** A condition that evaluates is evaluated. *)
Ltac wp_case_bool b :=
  lazymatch b with
  | true => idtac
  | false => idtac
  | _ =>
      let b' := eval vm_compute in b in
      lazymatch b' with
      | true => change b with true
      | false => change b with false
      | _ => let E := fresh "E" in destruct b eqn:E
      end
  end.

Ltac wp_head :=
  lazymatch goal with
  | |- wp (bind _ _) _ _ => apply wp_bind; wp_head
  | |- wp (lift ?r) _ _ => apply wp_lift; wp_case r
  | |- wp (assert ?b) _ _ => apply wp_assert; wp_case_bool b
  | |- wp (ext ?w ?c) _ _ => apply wp_ext; wp_case (raises w c)
  | |- wp (print _) _ _ => apply wp_print
  | |- wp (ret _) _ _ => apply wp_ret
  | |- wp (throw _) _ _ => apply wp_throw
  | |- wp (if ?b then _ else _) _ _ => wp_case_bool b
  | |- wp (append_precision_plugin _ _ _ _ _) _ _ =>
      unfold append_precision_plugin
  | |- wp (open_w ?w (Leaf (SStr ?p))) _ _ =>
      apply wp_open_w; wp_case (raises w (file_open p))
  | |- wp (write ?w ?p ?d) _ _ =>
      apply wp_write; wp_case (raises w (file_write p d))
  | |- wp (for_each (_ :: _) _) _ _ => cbn [for_each]
  | |- wp (for_each [] _) _ _ => apply wp_ret
  end.

(** Reads in a tree that was assigned to are reads in the tree before the
    assignment, or in the value assigned. *)
Ltac wp_assigns :=
  repeat match goal with
  | E : assign ?p ?x ?v = inr ?v' |- context [attr ?q ?v'] =>
      first
        [ rewrite (attr_assign_diverge p q x v v' E eq_refl)
        | let r := eval vm_compute in (strip_prefix p q) in
          lazymatch r with
          | Some [] => rewrite (attr_assign_same p x v v' ltac:(done) E)
          | Some ?r' =>
              rewrite (attr_assign_under p q r' x v v' E ltac:(done) eq_refl)
          end ]
  | E : attr ?q ?v = inr _ |- context [attr ?q ?v] => rewrite E
  end.

Ltac wp_step :=
  wp_assigns; wp_head; cbv beta iota zeta;
  cbn [trace stdout fs app negb]; rewrite ?andb_true_r.

(** ** Validation of the restore paths (lines 72-73) *)

Lemma run_wp w cfg files (Q : exn + () → state → Prop) :
  wp (main w cfg) Q (State [] [] files) →
  Q (run w cfg files).1 (run w cfg files).2.
Proof. done. Qed.

(** C1: a configuration whose [model.restore_from_path] or
    [model.peft.restore_from_path] is [None] makes [main] raise, and the
    calls made up to there are logging calls only: no strategy, loss
    scaler, plugin, trainer, dataset or dataloader has been constructed. *)
Theorem missing_restore_path_fails_first w cfg files :
  attr ["model"; "restore_from_path"]%string cfg = inr PyNone ∨
  attr ["model"; "peft"; "restore_from_path"]%string cfg = inr PyNone →
  (∃ e, (run w cfg files).1 = inl e) ∧
  Forall is_logging (trace (run w cfg files).2) ∧
  Forall (λ c, is_construction c = false) (trace (run w cfg files).2).
Proof.
  intros H.
  apply (run_wp w cfg files
    (λ r s, (∃ e, r = inl e) ∧ Forall is_logging (trace s) ∧
            Forall (λ c, is_construction c = false) (trace s))).
  unfold main.
  assert (∀ e (l : list call), Forall is_logging l →
            (∃ e0 : exn, inl (B := ()) e = inl e0) ∧ Forall is_logging l ∧
            Forall (λ c, is_construction c = false) l) as leaf.
  { intros e l Hl. split_and!; [by eexists|done|].
    eapply Forall_impl; [exact Hl|]. by intros []. }
  do 3 (wp_step; [apply leaf; by repeat constructor|]).
  wp_step; [apply leaf; by repeat constructor|].
  destruct H as [H|H].
  - inversion H; subst. wp_step. apply leaf. by repeat constructor.
  - wp_step; [|apply leaf; by repeat constructor].
    wp_step. wp_step. apply leaf. by repeat constructor.
Qed.

Lemma missing_restore_path_fails_first_witness :
  let cfg := Dict (<["model"%string :=
               Dict (<["restore_from_path"%string := PyNone]> ∅)]> ∅) in
  (∃ e, (run (Sample.world 0) cfg ∅).1 = inl e) ∧
  Forall is_logging (trace (run (Sample.world 0) cfg ∅).2) ∧
  Forall (λ c, is_construction c = false) (trace (run (Sample.world 0) cfg ∅).2).
Proof.
  apply missing_restore_path_fails_first. left. vm_compute. reflexivity.
Defined.


(** ** What the output step appends to the trace *)

Lemma appends_ret R {A} (a : A) : appends R (ret a).
Proof. intros s. exists []. by rewrite app_nil_r. Qed.

Lemma appends_throw R {A} e : appends R (throw (A := A) e).
Proof. intros s. exists []. by rewrite app_nil_r. Qed.

Lemma appends_lift R {A} (r : exn + A) : appends R (lift r).
Proof. destruct r; [apply appends_throw | apply appends_ret]. Qed.

Lemma appends_print R x : appends R (print x).
Proof. intros s. exists []. simpl. by rewrite app_nil_r. Qed.

Lemma appends_ext (R : call → Prop) w c : R c → appends R (ext w c).
Proof.
  intros Hc s. exists [c]. unfold ext, bind, record. simpl.
  destruct (raises w c); simpl; by repeat constructor.
Qed.

Lemma appends_bind R {A B} (m : M A) (f : A → M B) :
  appends R m → (∀ a, appends R (f a)) → appends R (bind m f).
Proof.
  intros Hm Hf s. unfold bind. destruct (Hm s) as (evs & Htr & Hev).
  destruct (m s) as [[e|a] s']; simpl in *; [by exists evs|].
  destruct (Hf a s') as (evs' & Htr' & Hev').
  exists (evs ++ evs')%list. rewrite Htr', Htr, app_assoc.
  split; [done|]. by apply Forall_app.
Qed.

Lemma appends_for_each R {A} (l : list A) (body : A → M ()) :
  (∀ a, appends R (body a)) → appends R (for_each l body).
Proof.
  intros Hb. induction l as [|a l IH]; simpl.
  - apply appends_ret.
  - apply appends_bind; [apply Hb|by intros _].
Qed.

Lemma appends_open_w w path : appends is_file_call (open_w w path).
Proof.
  destruct path as [[| | |p]| |]; simpl; try apply appends_throw.
  apply appends_bind; [by apply appends_ext|].
  intros _ s. exists []. simpl. by rewrite app_nil_r.
Qed.

Lemma appends_write w p data : appends is_file_call (write w p data).
Proof.
  apply appends_bind; [by apply appends_ext|].
  intros _ s. exists []. simpl. by rewrite app_nil_r.
Qed.

Lemma appends_output_step w cfg response :
  appends is_file_call (output_step w cfg response).
Proof.
  unfold output_step.
  apply appends_bind; [apply appends_print|intros _].
  apply appends_bind; [apply appends_lift|intros outfile_path].
  destruct (negb (is_None outfile_path)); [|apply appends_print].
  apply appends_bind; [apply appends_open_w|intros f].
  apply appends_bind.
  - apply appends_for_each. intros b.
    apply appends_bind; [apply appends_lift|intros sentences].
    apply appends_for_each. intros sentence. apply appends_write.
  - intros _. apply appends_bind; [apply appends_lift|intros ?].
    apply appends_print.
Qed.

Lemma wp_appends R {A} (m : M A) (Q : exn + A → state → Prop) s :
  appends R m →
  (∀ r s' evs, trace s' = (trace s ++ evs)%list → Forall R evs → Q r s') →
  wp m Q s.
Proof.
  intros Hm HQ. unfold wp. destruct (Hm s) as (evs & Htr & Hev). eauto.
Qed.

(** ** Invariants of a run *)

Section Safe.

Variable w : World.
Variable I : invariant.

Lemma safe_ret {A} (a : A) : safe I (ret a).
Proof. by intros s. Qed.

Lemma safe_throw {A} e : safe I (throw (A := A) e).
Proof. by intros s. Qed.

Lemma safe_print x : on_out I x → safe I (print x).
Proof.
  intros Hx s (Hc & Ho & Hf). split_and!; simpl; [done| |done].
  apply Forall_app. by repeat constructor.
Qed.

Lemma safe_ext c : on_call I c → safe I (ext w c).
Proof.
  intros Hc s (Ht & Ho & Hf). unfold ext, bind, record. simpl.
  assert (Forall (on_call I) (trace s ++ [c])).
  { apply Forall_app. by repeat constructor. }
  by destruct (raises w c).
Qed.

Lemma safe_bind {A B} (m : M A) (k : A → M B) :
  safe I m → (∀ a s, (m s).1 = inr a → safe I (k a)) → safe I (bind m k).
Proof.
  intros Hm Hk s Hs. unfold bind. specialize (Hm s Hs).
  specialize (Hk) with (s := s).
  destruct (m s) as [[e|a] s']; simpl in *; [done|].
  by apply (Hk a).
Qed.

Lemma safe_bind_assoc {A B C} (m : M A) (f : A → M B) (k : B → M C) :
  safe I (bind m (λ a, bind (f a) k)) → safe I (bind (bind m f) k).
Proof.
  intros H s Hs. specialize (H s Hs). unfold bind in *.
  by destruct (m s) as [[e|a] s'].
Qed.

Lemma safe_bind_lift {A B} (r : exn + A) (k : A → M B) :
  (∀ a, r = inr a → safe I (k a)) → safe I (bind (lift r) k).
Proof.
  intros Hk. destruct r as [e|a]; [by intros s|].
  intros s Hs. by apply (Hk a).
Qed.

Lemma safe_bind_ret {A B} (a : A) (k : A → M B) :
  safe I (k a) → safe I (bind (ret a) k).
Proof. by intros Hk s Hs; apply Hk. Qed.

Lemma safe_bind_throw {A B} e (k : A → M B) : safe I (bind (throw e) k).
Proof. by intros s. Qed.

Lemma safe_bind_assert {B} (b : bool) (k : () → M B) :
  (b = true → safe I (k ())) → safe I (bind (assert b) k).
Proof.
  intros Hk. destruct b; [|by intros s].
  intros s Hs. by apply Hk.
Qed.

Lemma safe_bind_ext {B} c (k : () → M B) :
  on_call I c → (raises w c = None → safe I (k ())) →
  safe I (bind (ext w c) k).
Proof.
  intros Hc Hk. apply safe_bind; [by apply safe_ext|].
  intros [] s Hr. apply Hk. revert Hr. unfold ext, bind, record. simpl.
  by destruct (raises w c).
Qed.

Lemma safe_bind_print {B} x (k : () → M B) :
  on_out I x → safe I (k ()) → safe I (bind (print x) k).
Proof.
  intros Hx Hk. apply safe_bind; [by apply safe_print|]. by intros [].
Qed.

Lemma safe_bind_if {A B} (b : bool) (m1 m2 : M A) (k : A → M B) :
  (b = true → safe I (bind m1 k)) → (b = false → safe I (bind m2 k)) →
  safe I (bind (if b then m1 else m2) k).
Proof. destruct b; auto. Qed.

Lemma safe_if {A} (b : bool) (m1 m2 : M A) :
  (b = true → safe I m1) → (b = false → safe I m2) →
  safe I (if b then m1 else m2).
Proof. destruct b; auto. Qed.

Lemma safe_run cfg files :
  safe I (main w cfg) → on_fs I files → holds I (run w cfg files).2.
Proof. intros H Hf. apply H. by repeat split. Qed.

End Safe.

(** A block that only appends calls allowed by an invariant on calls. *)
Lemma safe_calls_appends (R R' : call → Prop) {A} (m : M A) :
  appends R' m → (∀ c, R' c → R c) → safe (calls R) m.
Proof.
  intros Hm HR s (Ht & Ho & Hf). destruct (Hm s) as (evs & Htr & Hev).
  unfold holds. rewrite Htr. split_and!; simpl; [|by apply Forall_true|done].
  apply Forall_app. split; [done|]. eapply Forall_impl; [done|]. auto.
Qed.

(** An invariant on the calls of a run holds for every call of its trace. *)
Lemma run_calls w cfg files (R : call → Prop) :
  safe (calls R) (main w cfg) → ∀ c, c ∈ trace (run w cfg files).2 → R c.
Proof.
  intros H. apply Forall_forall.
  by destruct (safe_run w (calls R) cfg files H I) as (? & _).
Qed.

(** One step of the walk through a program: the rule for the statement at
    its head.  What is read or decided there is kept as a hypothesis. *)
Ltac safe_bool E :=
  try solve [vm_compute in E; discriminate E
            | apply Z.eqb_eq in E; contradiction].

Ltac safe_trivial :=
  try first [exact I | exact (λ x : False, x) | exact eq_refl].

Ltac safe_head :=
  lazymatch goal with
  | |- safe _ (bind (bind _ _) _) => apply safe_bind_assoc
  | |- safe _ (bind (lift (inr _)) _) => apply safe_bind_ret
  | |- safe _ (bind (lift (inl _)) _) => apply safe_bind_throw
  | |- safe _ (bind (lift ?r) _) =>
      first
        [ match goal with
          | E : r = inr _ |- _ => rewrite E; apply safe_bind_ret
          end
        | let a := fresh "v" in let E := fresh "E" in
          apply safe_bind_lift; intros a E ]
  | |- safe _ (bind (ret _) _) => apply safe_bind_ret
  | |- safe _ (bind (throw _) _) => apply safe_bind_throw
  | |- safe _ (bind (assert _) _) =>
      let E := fresh "E" in
      apply safe_bind_assert; intros E; safe_bool E
  | |- safe _ (bind (ext _ _) _) =>
      let E := fresh "E" in
      apply safe_bind_ext; [safe_trivial | intros E]
  | |- safe _ (bind (print _) _) => apply safe_bind_print; [safe_trivial|]
  | |- safe _ (bind (if _ then _ else _) _) =>
      let E := fresh "E" in
      apply safe_bind_if; intros E; safe_bool E
  | |- safe _ (bind (append_precision_plugin _ _ _ _ _) _) =>
      unfold append_precision_plugin
  | |- safe (calls _) (bind (output_step _ _ _) _) =>
      apply safe_bind;
      [ eapply safe_calls_appends; [apply appends_output_step | by intros []]
      | intros ? ? _ ]
  | |- safe _ (print _) => apply safe_print; safe_trivial
  | |- safe _ (bind (output_step _ _ _) _) => unfold output_step
  | |- safe _ (ret _) => apply safe_ret
  | |- safe _ (if _ then _ else _) =>
      let E := fresh "E" in
      apply safe_if; intros E; safe_bool E
  end.

Ltac safe_step :=
  wp_assigns; safe_head; cbv beta zeta; cbn [negb]; rewrite ?andb_true_r.

(** ** The plugin list (lines 77-100) *)

Lemma cfg_get_eq_str cfg k ct s :
  cfg_get cfg k PyNone = inr ct →
  py_eq ct (SStr s) = true ↔ attr [k] cfg = inr (Leaf (SStr s)).
Proof.
  rewrite py_eq_str. destruct cfg as [| |m]; simpl; try done.
  destruct (m !! k) as [x|]; simpl; intros H; inversion H; subst; [|done].
  split; [by intros ->|]. intros H'. by inversion H'.
Qed.

(** C5: the plugin list passed to the [Trainer] contains the
    [TorchElasticEnvironment] plugin if and only if [cfg.cluster_type] is
    ["BCP"]. *)
Theorem elastic_plugin_iff_BCP w cfg files t :
  new_Trainer t ∈ trace (run w cfg files).2 →
  TorchElasticEnvironment ∈ trainer_plugins t ↔
  attr ["cluster_type"%string] cfg = inr (Leaf (SStr "BCP")).
Proof.
  revert t.
  cut (∀ c, c ∈ trace (run w cfg files).2 →
         match c with
         | new_Trainer t =>
             TorchElasticEnvironment ∈ trainer_plugins t ↔
             attr ["cluster_type"%string] cfg = inr (Leaf (SStr "BCP"))
         | _ => True
         end).
  { intros H t Ht. apply (H _ Ht). }
  apply run_calls. unfold main.
  repeat safe_step.
  all: cbn [on_call calls trainer_plugins app].
  all: match goal with
       | Ek : cfg_get _ _ _ = inr ?c, Ep : py_eq ?c _ = _ |- _ =>
           rewrite <- (cfg_get_eq_str _ _ _ _ Ek), Ep
       end.
  all: rewrite ?elem_of_cons, ?elem_of_nil; intuition congruence.
Qed.

Lemma in_trainers tr t : t ∈ trainers tr → new_Trainer t ∈ tr.
Proof.
  induction tr as [|c tr IH]; simpl; [by intros ?%elem_of_nil|].
  destruct c; try (intros H; apply list_elem_of_further, IH, H).
  intros [->|H]%elem_of_cons; [apply list_elem_of_here|].
  by apply list_elem_of_further, IH.
Qed.

Lemma elastic_plugin_iff_BCP_witness :
  ∃ t, new_Trainer t ∈
         trace (run (Sample.world 0)
                    (Sample.config (Leaf (SInt 16)) (Leaf (SInt 1)) PyNone true) ∅).2 ∧
       (TorchElasticEnvironment ∈ trainer_plugins t ↔
        attr ["cluster_type"%string]
             (Sample.config (Leaf (SInt 16)) (Leaf (SInt 1)) PyNone true) =
        inr (Leaf (SStr "BCP"))).
Proof.
  refine (let H := _ : ∃ t, new_Trainer t ∈ _ in
          match H with
          | ex_intro _ t Ht =>
              ex_intro _ t (conj Ht (elastic_plugin_iff_BCP _ _ _ t Ht))
          end).
  eexists. apply in_trainers. vm_compute. apply list_elem_of_here.
Defined.

(** C6: the plugin list passed to the [Trainer] holds a numeric precision
    plugin if and only if [cfg.trainer.precision] is [16] or ["bf16"]; it
    then holds exactly one, constructed from the precision and ["cuda"]:
    [MegatronHalfPrecisionPlugin] when [megatron_amp_O2] is true
    ([with_distributed_adam] being [False]) and
    [PipelineMixedPrecisionPlugin] otherwise. *)
Theorem precision_plugin_selection w cfg files t :
  new_Trainer t ∈ trace (run w cfg files).2 → selects_precision_plugin cfg t.
Proof.
  revert t.
  cut (∀ c, c ∈ trace (run w cfg files).2 →
         match c with
         | new_Trainer t => selects_precision_plugin cfg t
         | _ => True
         end).
  { intros H t Ht. apply (H _ Ht). }
  apply run_calls. unfold main.
  repeat safe_step.
  all: cbn [on_call calls trainer_plugins app]; unfold selects_precision_plugin.
  all: do 3 eexists; split_and!; [first [eassumption|reflexivity]..|].
  all: match goal with
       | E : py_in ?v _ = true |- _ =>
           left; split; [by apply py_in_16_bf16|]
       | E : py_in ?v _ = false |- _ =>
           right; split; [rewrite <- py_in_16_bf16; congruence|]
       end.
  all: try match goal with
           | E : py_truthy _ = _ |- _ => rewrite E
           end.
  all: by try eexists.
Qed.

Lemma precision_plugin_selection_witness :
  ∃ t, new_Trainer t ∈
         trace (run (Sample.world 0)
                    (Sample.config (Leaf (SStr "bf16")) (Leaf (SInt 2)) PyNone false) ∅).2 ∧
       selects_precision_plugin
         (Sample.config (Leaf (SStr "bf16")) (Leaf (SInt 2)) PyNone false) t.
Proof.
  refine (let H := _ : ∃ t, new_Trainer t ∈ _ in
          match H with
          | ex_intro _ t Ht =>
              ex_intro _ t (conj Ht (precision_plugin_selection _ _ _ t Ht))
          end).
  eexists. apply in_trainers. vm_compute. apply list_elem_of_here.
Defined.

(** C9: with [cfg.trainer.precision] equal to ["bf16"] no [GradScaler] is
    ever constructed, and every plugin, constructed or passed to the
    [Trainer], has [scaler=None]. *)
Theorem bf16_never_scaled w cfg files :
  attr ["trainer"; "precision"]%string cfg = inr (Leaf (SStr "bf16")) →
  (∀ g, new_GradScaler g ∉ trace (run w cfg files).2) ∧
  (∀ p, new_plugin p ∈ trace (run w cfg files).2 → plugin_scaler p = None) ∧
  (∀ t p, new_Trainer t ∈ trace (run w cfg files).2 →
          p ∈ trainer_plugins t → plugin_scaler p = None).
Proof.
  intros H.
  cut (∀ c, c ∈ trace (run w cfg files).2 →
         match c with
         | new_GradScaler _ => False
         | new_plugin p => plugin_scaler p = None
         | new_Trainer t =>
             Forall (λ p, plugin_scaler p = None) (trainer_plugins t)
         | _ => True
         end).
  { intros Hc. split_and!.
    - intros g Hg. apply (Hc _ Hg).
    - intros p Hp. apply (Hc _ Hp).
    - intros t p Ht Hp. specialize (Hc _ Ht). simpl in Hc.
      by apply (proj1 (Forall_forall _ _) Hc). }
  apply run_calls. unfold main.
  repeat safe_step.
  all: cbn [on_call calls trainer_plugins app]; by repeat constructor.
Qed.

Lemma bf16_never_scaled_witness :
  let cfg := Sample.config (Leaf (SStr "bf16")) (Leaf (SInt 1)) PyNone true in
  (∀ g, new_GradScaler g ∉ trace (run (Sample.world 0) cfg ∅).2) ∧
  (∀ p, new_plugin p ∈ trace (run (Sample.world 0) cfg ∅).2 →
        plugin_scaler p = None) ∧
  (∀ t p, new_Trainer t ∈ trace (run (Sample.world 0) cfg ∅).2 →
          p ∈ trainer_plugins t → plugin_scaler p = None).
Proof.
  apply bf16_never_scaled. vm_compute. reflexivity.
Defined.

(** ** Restoration with the patched adapter configuration (lines 103-130) *)

(** C3: when the base model is restored, the adapter configuration passed
    as [override_config_path] has [precision] equal to
    [cfg.trainer.precision] and [data.test_ds] equal to
    [cfg.model.data.test_ds]. *)
Theorem overrides_reach_adapter_config w cfg files rp t pc conn :
  restore_model rp t pc conn ∈ trace (run w cfg files).2 →
  overrides_propagated cfg pc.
Proof.
  revert rp t pc conn.
  cut (∀ c, c ∈ trace (run w cfg files).2 →
         match c with
         | restore_model _ _ pc _ => overrides_propagated cfg pc
         | _ => True
         end).
  { intros H rp t pc conn Hc. apply (H _ Hc). }
  apply run_calls. unfold main.
  repeat safe_step.
  all: cbn [on_call calls]; unfold overrides_propagated.
  all: do 2 eexists; wp_assigns; split_and!; first [eassumption|reflexivity].
Qed.

Lemma overrides_reach_adapter_config_witness :
  ∃ rp t pc conn,
    restore_model rp t pc conn ∈
      trace (run (Sample.world 0)
                 (Sample.config (Leaf (SInt 16)) (Leaf (SInt 1)) PyNone true) ∅).2 ∧
    overrides_propagated
      (Sample.config (Leaf (SInt 16)) (Leaf (SInt 1)) PyNone true) pc.
Proof.
  refine (let H := _ : ∃ rp t pc conn, restore_model rp t pc conn ∈ _ in
          match H with
          | ex_intro _ rp (ex_intro _ t (ex_intro _ pc (ex_intro _ conn Hc))) =>
              ex_intro _ rp (ex_intro _ t (ex_intro _ pc (ex_intro _ conn
                (conj Hc (overrides_reach_adapter_config _ _ _ rp t pc conn Hc)))))
          end).
  do 4 eexists. eapply (list_elem_of_lookup_2 _ 10%nat).
  vm_compute. reflexivity.
Defined.

(** ** Who writes the output (lines 142-153) *)

(** C7: in a process whose global rank is not zero no call is made on an
    output file, the file system is left as it was, and nothing is printed
    but the closing line of stars: the response is neither written nor
    printed. *)
Theorem non_coordinator_writes_nothing w cfg files :
  global_rank w ≠ 0 →
  fs (run w cfg files).2 = files ∧
  Forall (λ c, ¬ is_file_call c) (trace (run w cfg files).2) ∧
  Forall (λ o, o = out_str stars) (stdout (run w cfg files).2).
Proof.
  intros Hrank.
  cut (holds (writes_nothing files) (run w cfg files).2).
  { by intros (? & ? & ?). }
  apply safe_run; [|done]. unfold main.
  repeat safe_step.
Qed.

Lemma non_coordinator_writes_nothing_witness :
  let w := Sample.world 1 in
  let cfg := Sample.config (Leaf (SInt 16)) (Leaf (SInt 1)) (Leaf (SStr "out.txt")) true in
  fs (run w cfg ∅).2 = ∅ ∧
  Forall (λ c, ¬ is_file_call c) (trace (run w cfg ∅).2) ∧
  Forall (λ o, o = out_str stars) (stdout (run w cfg ∅).2).
Proof.
  apply non_coordinator_writes_nothing. vm_compute. discriminate.
Defined.

(** C8, as the code has it: with [inference.outfile_path] equal to [None]
    no call is made on an output file and the file system is left as it
    was, in every process; in the process of global rank zero a run that
    completes has printed the response between two lines of stars. *)
Theorem response_printed_without_outfile w cfg files :
  attr ["inference"; "outfile_path"]%string cfg = inr PyNone →
  (fs (run w cfg files).2 = files ∧
   Forall (λ c, ¬ is_file_call c) (trace (run w cfg files).2)) ∧
  (global_rank w = 0 → (run w cfg files).1 = inr () →
   stdout (run w cfg files).2 =
   [out_str stars; out_repr (predictions w); out_str stars]).
Proof.
  intros Hout. split.
  - cut (holds (creates_no_file files) (run w cfg files).2).
    { by intros (? & ? & ?). }
    apply safe_run; [|done]. unfold main.
    repeat safe_step.
  - intros Hrank.
    apply (run_wp w cfg files
      (λ r s, r = inr () →
              stdout s = [out_str stars; out_repr (predictions w); out_str stars])).
    unfold main, output_step. rewrite Hrank.
    repeat wp_step.
    all: by intros.
Qed.

Lemma response_printed_without_outfile_witness :
  let w := Sample.world 0 in
  let cfg := Sample.config (Leaf (SInt 16)) (Leaf (SInt 1)) PyNone true in
  (fs (run w cfg ∅).2 = ∅ ∧
   Forall (λ c, ¬ is_file_call c) (trace (run w cfg ∅).2)) ∧
  (global_rank w = 0 → (run w cfg ∅).1 = inr () →
   stdout (run w cfg ∅).2 =
   [out_str stars; out_repr (predictions w); out_str stars]).
Proof.
  apply response_printed_without_outfile. vm_compute. reflexivity.
Defined.

(** C8 as it is stated fails in a process of rank 1: the path is unset,
    the run completes, and the response is not printed. *)
Lemma response_not_printed_on_rank_1 :
  let w := Sample.world 1 in
  let cfg := Sample.config (Leaf (SInt 16)) (Leaf (SInt 1)) PyNone true in
  attr ["inference"; "outfile_path"]%string cfg = inr PyNone ∧
  (run w cfg ∅).1 = inr () ∧
  out_repr (predictions w) ∉ stdout (run w cfg ∅).2.
Proof.
  split_and!; [by vm_compute..|].
  assert (stdout (run (Sample.world 1)
            (Sample.config (Leaf (SInt 16)) (Leaf (SInt 1)) PyNone true) ∅).2 =
          [out_str stars]) as -> by (by vm_compute).
  by intros ?%list_elem_of_singleton.
Qed.

(** ** The inference configuration (lines 113-117 and 139-140) *)

Lemma assign2_inv k1 k2 x v v' :
  assign [k1; k2] x v = inr v' →
  ∃ m mi, v = Dict m ∧ m !! k1 = Some (Dict mi) ∧
          v' = Dict (<[k1 := Dict (<[k2 := x]> mi)]> m).
Proof.
  simpl. destruct v as [| |m]; simpl; try done.
  destruct (m !! k1) as [[| |mi]|] eqn:Hk; simpl; try done.
  intros H. inversion H. by exists m, mi.
Qed.

(** Values supplied for two keys of one node are lost when the keys are
    assigned again. *)
Lemma assign2_overwrites k ka kb x y a b v vx vy v1 root :
  ka ≠ kb →
  assign [k; ka] x v = inr vx → assign [k; kb] y vx = inr vy →
  assign [k; ka] a v = inr v1 → assign [k; kb] b v1 = inr root →
  ∃ vy1, assign [k; ka] a vy = inr vy1 ∧ assign [k; kb] b vy1 = inr root.
Proof.
  intros Hne (m & mi & -> & Hk & ->)%assign2_inv Hy.
  apply assign2_inv in Hy as (m' & mi' & Hm' & Hk' & ->).
  inversion Hm'; subst m'. rewrite lookup_insert_eq in Hk'.
  inversion Hk'; subst mi'.
  intros (m2 & mi2 & Hm2 & Hk2 & ->)%assign2_inv Hb.
  inversion Hm2; subst m2. rewrite Hk in Hk2. inversion Hk2; subst mi2.
  apply assign2_inv in Hb as (m3 & mi3 & Hm3 & Hk3 & ->).
  inversion Hm3; subst m3. rewrite lookup_insert_eq in Hk3.
  inversion Hk3; subst mi3.
  eexists. split.
  - simpl. rewrite lookup_insert_eq. reflexivity.
  - simpl. rewrite lookup_insert_eq. do 2 f_equal.
    rewrite !insert_insert_eq. do 2 f_equal.
    apply map_eq. intros i.
    destruct (decide (i = kb)) as [->|Hb]; [by simplify_map_eq|].
    destruct (decide (i = ka)) as [->|Ha]; by simplify_map_eq.
Qed.

Lemma pushed_inference_config_spec w cfg files config :
  model_set_inference_config config ∈ trace (run w cfg files).2 →
  pushed_inference_config w cfg config.
Proof.
  revert config.
  cut (∀ c, c ∈ trace (run w cfg files).2 →
         match c with
         | model_set_inference_config config =>
             pushed_inference_config w cfg config
         | _ => True
         end).
  { intros H config Hc. apply (H _ Hc). }
  apply run_calls. unfold main.
  repeat safe_step.
  all: cbn [on_call calls]; unfold pushed_inference_config.
  all: do 9 eexists; split_and!.
  all: first [eassumption | wp_assigns; first [eassumption | reflexivity]].
Qed.

(** C10: the inference configuration pushed into the model is resolved
    from a configuration in which [inference.add_BOS] and
    [inference.tokens_to_generate] hold the values of [data.test_ds.add_bos]
    and [data.test_ds.tokens_to_generate] of the adapter configuration; it
    is the same whatever values [x] and [y] were supplied for the two keys. *)
Theorem inference_keys_overwritten w cfg files config :
  model_set_inference_config config ∈ trace (run w cfg files).2 →
  pushed_inference_config w cfg config ∧
  ∀ x y cfgx cfgy config',
    assign ["inference"; "add_BOS"]%string x cfg = inr cfgx →
    assign ["inference"; "tokens_to_generate"]%string y cfgx = inr cfgy →
    model_set_inference_config config' ∈ trace (run w cfgy files).2 →
    config' = config.
Proof.
  intros Hc. apply pushed_inference_config_spec in Hc as Hspec.
  split; [done|].
  intros x y cfgx cfgy config' Hx Hy Hc'.
  apply pushed_inference_config_spec in Hc'.
  destruct Hspec as (pp & pr & ds & pc1 & pc & ab & tk & cfg1 & root &
    Hpp & Hpr & Hpc1 & Hds & Hpc & Hab & Hcfg1 & Htk & Hroot & _ & _ & ->).
  destruct Hc' as (pp' & pr' & ds' & pc1' & pc' & ab' & tk' & cfg1' & root' &
    Hpp' & Hpr' & Hpc1' & Hds' & Hpc' & Hab' & Hcfg1' & Htk' & Hroot' & _ & _ & ->).
  assert (∀ q, diverge ["inference"%string] q = true →
               attr q cfgy = attr q cfg) as Hsame.
  { intros [|k q] Hq; [done|].
    assert (∀ k2, diverge ["inference"; k2]%string (k :: q) = true) as Hd.
    { intros k2. cbn [diverge] in *.
      by destruct (String.eqb "inference" k). }
    by rewrite (attr_assign_diverge _ (k :: q) _ _ _ Hy (Hd _)),
      (attr_assign_diverge _ (k :: q) _ _ _ Hx (Hd _)). }
  rewrite Hsame in Hpp', Hpr', Hds' by done.
  assert (pp' = pp) as -> by congruence.
  assert (pr' = pr) as -> by congruence.
  assert (ds' = ds) as -> by congruence.
  assert (pc1' = pc1) as -> by congruence.
  assert (pc' = pc) as -> by congruence.
  assert (ab' = ab) as -> by congruence.
  assert (tk' = tk) as -> by congruence.
  destruct (assign2_overwrites "inference" "add_BOS" "tokens_to_generate"
              _ _ _ _ _ _ _ _ _ ltac:(done) Hx Hy Hcfg1 Hroot)
    as (vy1 & H1 & H2).
  assert (cfg1' = vy1) as -> by congruence.
  assert (root' = root) as -> by congruence.
  done.
Qed.

Lemma inference_keys_overwritten_witness :
  let cfg := Sample.config (Leaf (SInt 16)) (Leaf (SInt 1)) PyNone true in
  ∃ config,
    model_set_inference_config config ∈ trace (run (Sample.world 0) cfg ∅).2 ∧
    (pushed_inference_config (Sample.world 0) cfg config ∧
     ∀ x y cfgx cfgy config',
       assign ["inference"; "add_BOS"]%string x cfg = inr cfgx →
       assign ["inference"; "tokens_to_generate"]%string y cfgx = inr cfgy →
       model_set_inference_config config' ∈
         trace (run (Sample.world 0) cfgy ∅).2 →
       config' = config).
Proof.
  refine (let H := _ : ∃ config, model_set_inference_config config ∈ _ in
          match H with
          | ex_intro _ c Hc =>
              ex_intro _ c (conj Hc (inference_keys_overwritten _ _ _ c Hc))
          end).
  eexists. eapply (list_elem_of_lookup_2 _ 17%nat).
  vm_compute. reflexivity.
Defined.

(** ** The lines of the output file (lines 144-150) *)

Lemma append_cons c (s t : string) :
  (String c s ++ t)%string = String c (s ++ t)%string.
Proof. reflexivity. Qed.

Lemma append_assoc (s t u : string) :
  ((s ++ t) ++ u)%string = (s ++ t ++ u)%string.
Proof.
  induction s as [|c s IH]; [done|]. by rewrite !append_cons, IH.
Qed.

Lemma str_split_nonempty sep s : str_split sep s ≠ [].
Proof.
  destruct s as [|c s]; simpl; [done|].
  destruct (Ascii.eqb c sep); [done|]. by destruct (str_split sep s).
Qed.

(** Splitting at the newlines and joining with spaces replaces every
    newline by one space. *)
Lemma flatten_sentence_spec s : flatten_sentence s = newlines_to_spaces s.
Proof.
  unfold flatten_sentence. induction s as [|c s IH]; [done|].
  cbn [str_split newlines_to_spaces].
  pose proof (str_split_nonempty newline_char s) as Hne.
  destruct (Ascii.eqb c newline_char).
  - destruct (str_split newline_char s) as [|h t] eqn:Hs; [done|].
    rewrite <- IH. reflexivity.
  - destruct (str_split newline_char s) as [|h t] eqn:Hs; [done|].
    rewrite <- IH. by destruct t.
Qed.

Lemma newlines_to_spaces_clean s : has_newline (newlines_to_spaces s) = false.
Proof.
  induction s as [|c s IH]; [done|]. cbn [newlines_to_spaces has_newline].
  rewrite IH, orb_false_r. by destruct (Ascii.eqb c newline_char) eqn:Hc.
Qed.

(** A text that starts with a line without newline, ended by a newline. *)
Lemma file_lines_line acc l rest :
  has_newline l = false →
  file_lines acc (l ++ NL ++ rest)%string =
  (acc ++ l)%string :: file_lines EmptyString rest.
Proof.
  revert acc. induction l as [|c l IH]; intros acc Hl.
  - change (file_lines acc (String newline_char rest) =
            (acc ++ EmptyString)%string :: file_lines EmptyString rest).
    cbn [file_lines]. rewrite Ascii.eqb_refl. f_equal.
    clear. induction acc as [|c acc IH]; [done|]. by rewrite append_cons, <- IH.
  - cbn [has_newline] in Hl. apply orb_false_iff in Hl as [Hc Hl].
    rewrite append_cons. cbn [file_lines]. rewrite Hc, IH by done.
    by rewrite append_assoc.
Qed.

Lemma file_lines_last acc l :
  has_newline l = false → file_lines acc (l ++ NL)%string = [(acc ++ l)%string].
Proof. intros Hl. by apply (file_lines_line acc l EmptyString). Qed.

(** C2: with an output path set and a response of two batches of two
    sentences each, the output step returns, and the file at the path then
    holds exactly four lines: the sentences in batch-then-item order, each
    with every newline replaced by one space. *)
Theorem output_file_has_four_lines w cfg p b1 b2 s1 s2 s3 s4 s :
  attr ["inference"; "outfile_path"]%string cfg = inr (Leaf (SStr p)) →
  b1 !! "sentences"%string = Some [s1; s2] →
  b2 !! "sentences"%string = Some [s3; s4] →
  (∀ c, is_file_call c → raises w c = None) →
  let l1 := newlines_to_spaces s1 in
  let l2 := newlines_to_spaces s2 in
  let l3 := newlines_to_spaces s3 in
  let l4 := newlines_to_spaces s4 in
  let written := (l1 ++ NL ++ l2 ++ NL ++ l3 ++ NL ++ l4 ++ NL)%string in
  (output_step w cfg [b1; b2] s).1 = inr () ∧
  fs (output_step w cfg [b1; b2] s).2 = <[p := written]> (fs s) ∧
  file_lines EmptyString written = [l1; l2; l3; l4] ∧
  Forall (λ l, has_newline l = false) [l1; l2; l3; l4].
Proof.
  intros Hp Hb1 Hb2 Hok l1 l2 l3 l4 written.
  assert (wp (output_step w cfg [b1; b2])
             (λ r s', r = inr () ∧ fs s' = <[p := written]> (fs s)) s) as Hwp.
  { assert (getitem b1 "sentences" = inr [s1; s2]) as Hg1
      by (unfold getitem; by rewrite Hb1).
    assert (getitem b2 "sentences" = inr [s3; s4]) as Hg2
      by (unfold getitem; by rewrite Hb2).
    unfold output_step.
    repeat (rewrite ?Hg1, ?Hg2; wp_step;
            try match goal with
                | E : raises _ _ = Some _ |- _ =>
                    rewrite Hok in E by exact I; discriminate E
                end).
    split; [done|].
    rewrite !lookup_insert_eq, !insert_insert_eq. cbn [default from_option id].
    rewrite !flatten_sentence_spec. unfold written, l1, l2, l3, l4.
    f_equal. change (String.append EmptyString ?x) with x.
    by rewrite !append_assoc. }
  destruct Hwp as [Hr Hfs]. split_and!; [done|done|..].
  - unfold written.
    rewrite !file_lines_line, file_lines_last
      by apply newlines_to_spaces_clean. done.
  - repeat constructor; apply newlines_to_spaces_clean.
Qed.

(** The output step in general: one line for every sentence of every
    batch, in batch-then-item order. *)
Lemma append_empty_r (s : string) : (s ++ EmptyString)%string = s.
Proof. induction s as [|c s IH]; [done|]. by rewrite append_cons, IH. Qed.

Lemma render_lines_app l ls :
  render_lines (l ++ ls) = (render_lines l ++ render_lines ls)%string.
Proof.
  induction l as [|x l IH]; [done|]. simpl.
  by rewrite IH, !append_assoc.
Qed.

Lemma bind_returns {A B} (m : M A) (f : A → M B) s a s' :
  m s = (inr a, s') → bind m f s = f a s'.
Proof. unfold bind. by intros ->. Qed.

Lemma write_returns w p data s :
  raises w (file_write p data) = None →
  write w p data s =
  (inr (), State (trace s ++ [file_write p data]) (stdout s)
                 (<[p := (default EmptyString (fs s !! p) ++ data)%string]> (fs s))).
Proof. intros H. unfold write, ext, bind, record. simpl. by rewrite H. Qed.

Lemma write_sentences w p sentences s acc :
  (∀ c, is_file_call c → raises w c = None) →
  fs s !! p = Some acc →
  ∃ tr,
    for_each sentences
      (λ sentence, write w p (flatten_sentence sentence ++ NL)%string) s =
    (inr (), State tr (stdout s)
                   (<[p := (acc ++ render_lines sentences)%string]> (fs s))).
Proof.
  intros Hok. revert s acc.
  induction sentences as [|x l IH]; intros s acc Hp; cbn [for_each render_lines].
  - exists (trace s). rewrite append_empty_r, insert_id by done. by destruct s.
  - erewrite bind_returns by (apply write_returns, Hok, I).
    edestruct (IH (State (trace s ++ [file_write p (flatten_sentence x ++ NL)%string])
                         (stdout s)
                         (<[p := (default EmptyString (fs s !! p) ++
                                  flatten_sentence x ++ NL)%string]> (fs s))))
      as [tr Htr]; [by apply lookup_insert_eq|].
    exists tr. rewrite Htr. cbn [stdout fs].
    by rewrite Hp, insert_insert_eq, flatten_sentence_spec, !append_assoc.
Qed.

Lemma write_batches w p response sentences s acc :
  (∀ c, is_file_call c → raises w c = None) →
  all_sentences response = Some sentences →
  fs s !! p = Some acc →
  ∃ tr,
    for_each response (λ b,
      bind (lift (getitem b "sentences")) (λ sentences,
        for_each sentences
          (λ sentence, write w p (flatten_sentence sentence ++ NL)%string))) s =
    (inr (), State tr (stdout s)
                   (<[p := (acc ++ render_lines sentences)%string]> (fs s))).
Proof.
  intros Hok. revert sentences s acc.
  induction response as [|b r IH]; intros sentences s acc Hall Hp.
  - inversion Hall; subst. by apply (write_sentences w p [] s acc).
  - simpl in Hall.
    destruct (b !! "sentences"%string) as [l|] eqn:Hb; [|done].
    destruct (all_sentences r) as [ls|] eqn:Hr; [|done].
    inversion Hall; subst sentences. cbn [for_each].
    destruct (write_sentences w p l s acc Hok Hp) as [tr1 H1].
    erewrite bind_returns; last first.
    { erewrite bind_returns; [exact H1|].
      unfold getitem. by rewrite Hb. }
    edestruct (IH ls (State tr1 (stdout s)
                            (<[p := (acc ++ render_lines l)%string]> (fs s))))
      as [tr Htr]; [done|by apply lookup_insert_eq|].
    exists tr. rewrite Htr. cbn [stdout fs].
    by rewrite insert_insert_eq, render_lines_app, append_assoc.
Qed.

Lemma output_step_writes_every_sentence w cfg p response sentences s :
  attr ["inference"; "outfile_path"]%string cfg = inr (Leaf (SStr p)) →
  all_sentences response = Some sentences →
  (∀ c, is_file_call c → raises w c = None) →
  (output_step w cfg response s).1 = inr () ∧
  fs (output_step w cfg response s).2 = <[p := render_lines sentences]> (fs s).
Proof.
  intros Hp Hall Hok. unfold output_step.
  erewrite bind_returns by reflexivity.
  rewrite Hp. erewrite bind_returns by reflexivity. cbn [negb is_None].
  erewrite bind_returns; last first.
  { unfold open_w. erewrite bind_returns; [reflexivity|].
    unfold ext. erewrite bind_returns by reflexivity.
    by rewrite Hok. }
  cbn [trace stdout fs].
  edestruct (write_batches w p response sentences
               (State (trace s ++ [file_open p]) (stdout s ++ [out_str stars])
                      (<[p := EmptyString]> (fs s))) EmptyString Hok Hall)
    as [tr Htr]; [by apply lookup_insert_eq|].
  erewrite bind_returns by exact Htr.
  erewrite bind_returns by reflexivity.
  cbn [print fst snd fs stdout trace]. by rewrite insert_insert_eq.
Qed.

(** A whole run of the coordinating process leaves these lines in the
    output file. *)
Lemma coordinator_run_writes_every_sentence w cfg files p sentences :
  global_rank w = 0 →
  attr ["inference"; "outfile_path"]%string cfg = inr (Leaf (SStr p)) →
  all_sentences (predictions w) = Some sentences →
  (∀ c, is_file_call c → raises w c = None) →
  (run w cfg files).1 = inr () →
  fs (run w cfg files).2 = <[p := render_lines sentences]> files.
Proof.
  intros Hrank Hp Hall Hok.
  apply (run_wp w cfg files
    (λ r s, r = inr () → fs s = <[p := render_lines sentences]> files)).
  unfold main. rewrite Hrank.
  repeat wp_step.
  all: try by intros.
  all: match goal with
       | |- wp (output_step ?w ?c ?r) _ ?s =>
           assert (attr ["inference"; "outfile_path"]%string c =
                   inr (Leaf (SStr p))) as Hp' by (by wp_assigns);
           destruct (output_step_writes_every_sentence w c p r sentences s
                       Hp' Hall Hok) as [H1 H2];
           unfold wp; rewrite H1; by apply wp_print
       end.
Qed.

Lemma output_file_has_four_lines_witness :
  let w := Sample.world 0 in
  let cfg := Sample.config (Leaf (SInt 16)) (Leaf (SInt 1)) (Leaf (SStr "out.txt")) true in
  let b1 : batch := {[ "sentences"%string := ["alpha"; ("be" ++ NL ++ "ta")]%string ]} in
  let b2 : batch := {[ "sentences"%string := ["gamma"; "delta"]%string ]} in
  let s := State [] [] ∅ in
  let l1 := newlines_to_spaces "alpha" in
  let l2 := newlines_to_spaces ("be" ++ NL ++ "ta") in
  let l3 := newlines_to_spaces "gamma" in
  let l4 := newlines_to_spaces "delta" in
  let written := (l1 ++ NL ++ l2 ++ NL ++ l3 ++ NL ++ l4 ++ NL)%string in
  (output_step w cfg [b1; b2] s).1 = inr () ∧
  fs (output_step w cfg [b1; b2] s).2 = <["out.txt"%string := written]> (fs s) ∧
  file_lines EmptyString written = [l1; l2; l3; l4] ∧
  Forall (λ l, has_newline l = false) [l1; l2; l3; l4].
Proof.
  apply (output_file_has_four_lines (Sample.world 0)
           (Sample.config (Leaf (SInt 16)) (Leaf (SInt 1)) (Leaf (SStr "out.txt")) true)
           "out.txt").
  - vm_compute. reflexivity.
  - vm_compute. reflexivity.
  - vm_compute. reflexivity.
  - intros c _. reflexivity.
Defined.

(** The file written by a whole run of the coordinating process. *)
Example sample_run_writes_four_lines :
  let cfg := Sample.config (Leaf (SInt 16)) (Leaf (SInt 1)) (Leaf (SStr "out.txt")) true in
  (run (Sample.world 0) cfg ∅).1 = inr () ∧
  fs (run (Sample.world 0) cfg ∅).2 !! "out.txt"%string =
  Some ("alpha" ++ NL ++ "be ta" ++ NL ++ "gamma" ++ NL ++ "delta" ++ NL)%string.
Proof. split; vm_compute; reflexivity. Qed.

(** ** The loss scaler (lines 85-93) *)

Lemma in_trainers_inv tr t : new_Trainer t ∈ tr → t ∈ trainers tr.
Proof.
  induction tr as [|c tr IH]; [by intros ?%elem_of_nil|].
  intros [<-|H]%elem_of_cons; [apply list_elem_of_here|].
  destruct c; simpl; try by apply IH.
  by apply list_elem_of_further, IH.
Qed.

Lemma trainers_app_files tr evs :
  Forall is_file_call evs → trainers (tr ++ evs) = trainers tr.
Proof.
  intros Hevs. induction tr as [|c tr IH]; simpl.
  - induction Hevs as [|c evs Hc _ IH]; [done|]. by destruct c.
  - destruct c; by rewrite ?IH.
Qed.

Lemma scalers_app tr evs g : g ∈ scalers tr → g ∈ scalers (tr ++ evs).
Proof.
  induction tr as [|c tr IH]; simpl; [by intros ?%elem_of_nil|].
  destruct c; try done.
  intros [->|H]%elem_of_cons; [apply list_elem_of_here|].
  by apply list_elem_of_further, IH.
Qed.

Lemma scaler_history_app cfg tr evs :
  Forall is_file_call evs → scaler_history cfg tr →
  scaler_history cfg (tr ++ evs).
Proof.
  intros Hevs H t Ht. rewrite trainers_app_files in Ht by done.
  destruct (H t Ht) as (g & Hg & ?). exists g.
  split; [by apply scalers_app|done].
Qed.

Lemma in_scalers tr g : g ∈ scalers tr → new_GradScaler g ∈ tr.
Proof.
  induction tr as [|c tr IH]; simpl; [by intros ?%elem_of_nil|].
  destruct c; try (intros H; apply list_elem_of_further, IH, H).
  intros [->|H]%elem_of_cons; [apply list_elem_of_here|].
  by apply list_elem_of_further, IH.
Qed.

(** C4, as the code has it: with [cfg.trainer.precision] equal to [16], a
    run that gets as far as constructing the [Trainer] has constructed a
    [GradScaler]; its [enabled] is [False] when
    [cfg.model.pipeline_model_parallel_size > 1] and [True] otherwise, and
    it is the scaler of the precision plugin passed to the [Trainer]. *)
Theorem scaler_enabled_unless_pipeline_parallel w cfg files t :
  attr ["trainer"; "precision"]%string cfg = inr (Leaf (SInt 16)) →
  new_Trainer t ∈ trace (run w cfg files).2 →
  scaler_constructed cfg (trace (run w cfg files).2) t.
Proof.
  intros Hprec Ht. apply in_trainers_inv in Ht.
  cut (scaler_history cfg (trace (run w cfg files).2)).
  { intros H. destruct (H t Ht) as (g & Hg & ?).
    exists g. split; [by apply in_scalers|done]. }
  clear t Ht.
  apply (run_wp w cfg files (λ _ s, scaler_history cfg (trace s))).
  unfold main.
  repeat wp_step.
  all: try (eapply wp_appends; [apply appends_output_step|];
            intros r s' evs Hs' Hevs;
            assert (scaler_history cfg (trace s'));
            [rewrite Hs'; apply scaler_history_app; [done|]
            |destruct r; [done|by apply wp_print]]).
  all: unfold scaler_history; cbn [trainers scalers]; intros t Ht.
  all: try by apply elem_of_nil in Ht.
  all: apply list_elem_of_singleton in Ht; subst t.
  all: eexists; split; [apply list_elem_of_here|].
  all: split; [|eexists; split; reflexivity].
  all: do 2 eexists; split_and!; [first [eassumption|reflexivity]..|].
  all: by match goal with
          | |- context [if ?b then false else true] => destruct b
          end.
Qed.

Lemma scaler_enabled_unless_pipeline_parallel_witness :
  let cfg := Sample.config (Leaf (SInt 16)) (Leaf (SInt 2)) PyNone false in
  ∃ t, new_Trainer t ∈ trace (run (Sample.world 0) cfg ∅).2 ∧
       scaler_constructed cfg (trace (run (Sample.world 0) cfg ∅).2) t.
Proof.
  intros cfg.
  refine (let H := _ : ∃ t, new_Trainer t ∈ trace (run (Sample.world 0) cfg ∅).2 in
          match H with
          | ex_intro _ t Ht =>
              ex_intro _ t
                (conj Ht (scaler_enabled_unless_pipeline_parallel
                            (Sample.world 0) cfg ∅ t
                            ltac:(vm_compute; reflexivity) Ht))
          end).
  eexists. apply in_trainers. vm_compute. apply list_elem_of_here.
Defined.

(** C4 as it is stated fails for a pipeline-parallel size of 0: the size
    is not 1, and the [GradScaler] is constructed with [enabled=True]. *)
Lemma scaler_enabled_at_size_zero :
  let cfg := Sample.config (Leaf (SInt 16)) (Leaf (SInt 0)) PyNone true in
  attr ["trainer"; "precision"]%string cfg = inr (Leaf (SInt 16)) ∧
  attr ["model"; "pipeline_model_parallel_size"]%string cfg = inr (Leaf (SInt 0)) ∧
  ∃ g, new_GradScaler g ∈ trace (run (Sample.world 0) cfg ∅).2 ∧
       enabled g = true.
Proof.
  split_and!; [by vm_compute..|].
  eexists. split; [apply in_scalers; vm_compute; apply list_elem_of_here|done].
Qed.

(** ** Monitored runs *)

Section Monitored.

Context {G : Type}.
Variable w : World.
Variable mo : monitor G.
Variable g0 : G.

Lemma accepts_app g tr tr' :
  accepts mo g (tr ++ tr') ↔ accepts mo g tr ∧ accepts mo (ghost mo g tr) tr'.
Proof.
  revert g. induction tr as [|c tr IH]; intros g; simpl; [tauto|].
  rewrite IH. unfold ghost. simpl. tauto.
Qed.

Lemma ghost_app g tr tr' : ghost mo g (tr ++ tr') = ghost mo (ghost mo g tr) tr'.
Proof. apply foldl_app. Qed.

Lemma monitored_ret g {A} (a : A) : monitored mo g0 g (ret a).
Proof. by intros s. Qed.

Lemma monitored_print g x : monitored mo g0 g (print x).
Proof. by intros s. Qed.

Lemma monitored_bind_assoc g {A B C} (m : M A) (f : A → M B) (k : B → M C) :
  monitored mo g0 g (bind m (λ a, bind (f a) k)) →
  monitored mo g0 g (bind (bind m f) k).
Proof.
  intros H s Hs Hg. specialize (H s Hs Hg). unfold bind in *.
  by destruct (m s) as [[e|a] s'].
Qed.

Lemma monitored_bind_lift g {A B} (r : exn + A) (k : A → M B) :
  (∀ a, r = inr a → monitored mo g0 g (k a)) →
  monitored mo g0 g (bind (lift r) k).
Proof.
  intros Hk. destruct r as [e|a]; [by intros s|].
  intros s Hs Hg. by apply (Hk a).
Qed.

Lemma monitored_bind_ret g {A B} (a : A) (k : A → M B) :
  monitored mo g0 g (k a) → monitored mo g0 g (bind (ret a) k).
Proof. intros Hk s Hs Hg. by apply Hk. Qed.

Lemma monitored_bind_throw g {A B} e (k : A → M B) :
  monitored mo g0 g (bind (throw e) k).
Proof. by intros s. Qed.

Lemma monitored_bind_assert g {B} (b : bool) (k : () → M B) :
  (b = true → monitored mo g0 g (k ())) →
  monitored mo g0 g (bind (assert b) k).
Proof.
  intros Hk. destruct b; [|by intros s].
  intros s Hs Hg. by apply Hk.
Qed.

Lemma monitored_bind_print g {B} x (k : () → M B) :
  monitored mo g0 g (k ()) → monitored mo g0 g (bind (print x) k).
Proof. intros Hk s Hs Hg. by apply Hk. Qed.

Lemma monitored_bind_if g {A B} (b : bool) (m1 m2 : M A) (k : A → M B) :
  (b = true → monitored mo g0 g (bind m1 k)) →
  (b = false → monitored mo g0 g (bind m2 k)) →
  monitored mo g0 g (bind (if b then m1 else m2) k).
Proof. destruct b; auto. Qed.

(** A call to a collaborator must be allowed; the walk goes on in the next
    ghost state. *)
Lemma monitored_bind_ext g {B} c (k : () → M B) :
  allowed mo g c →
  (raises w c = None → monitored mo g0 (next mo g c) (k ())) →
  monitored mo g0 g (bind (ext w c) k).
Proof.
  intros Hc Hk s Hs Hg. unfold bind, ext, record. simpl.
  assert (accepts mo g0 (trace s ++ [c])) as Hs'.
  { apply accepts_app. rewrite Hg. by repeat split. }
  destruct (raises w c) eqn:Hr; simpl; [done|].
  apply Hk; [done..|]. simpl. rewrite ghost_app, Hg. done.
Qed.

(** A block that appends only calls that the monitor ignores. *)
Lemma monitored_bind_appends g (R : call → Prop) {A B} (m : M A) (k : A → M B) :
  appends R m →
  (∀ g c, R c → allowed mo g c ∧ next mo g c = g) →
  (∀ a, monitored mo g0 g (k a)) →
  monitored mo g0 g (bind m k).
Proof.
  intros Hm HR Hk s Hs Hg. unfold bind.
  destruct (Hm s) as (evs & Htr & Hev).
  assert (accepts mo g0 (trace (m s).2) ∧ ghost mo g0 (trace (m s).2) = g)
    as [Hs' Hg'].
  { rewrite Htr, accepts_app, ghost_app, Hg. clear Htr.
    induction Hev as [|c evs Hc _ IH]; [done|].
    destruct (HR g c Hc) as [Hal Hnx]. simpl.
    unfold ghost in *. simpl. rewrite Hnx. tauto. }
  destruct (m s) as [[e|a] s']; simpl in *; [done|]. by apply Hk.
Qed.

Lemma monitored_run cfg files :
  monitored mo g0 g0 (main w cfg) →
  accepts mo g0 (trace (run w cfg files).2).
Proof. intros H. by apply H. Qed.

End Monitored.

(** One step of the walk of a monitored program. *)
Ltac monitored_head :=
  lazymatch goal with
  | |- monitored _ _ _ (bind (bind _ _) _) => apply monitored_bind_assoc
  | |- monitored _ _ _ (bind (lift (inr _)) _) => apply monitored_bind_ret
  | |- monitored _ _ _ (bind (lift (inl _)) _) => apply monitored_bind_throw
  | |- monitored _ _ _ (bind (lift ?r) _) =>
      first
        [ match goal with
          | E : r = inr _ |- _ => rewrite E; apply monitored_bind_ret
          end
        | let a := fresh "v" in let E := fresh "E" in
          apply monitored_bind_lift; intros a E ]
  | |- monitored _ _ _ (bind (ret _) _) => apply monitored_bind_ret
  | |- monitored _ _ _ (bind (throw _) _) => apply monitored_bind_throw
  | |- monitored _ _ _ (bind (assert _) _) =>
      let E := fresh "E" in
      apply monitored_bind_assert; intros E; safe_bool E
  | |- monitored _ _ _ (bind (ext _ _) _) =>
      let E := fresh "E" in
      apply monitored_bind_ext; [safe_trivial | intros E]
  | |- monitored _ _ _ (bind (print _) _) => apply monitored_bind_print
  | |- monitored _ _ _ (bind (if _ then _ else _) _) =>
      let E := fresh "E" in
      apply monitored_bind_if; intros E; safe_bool E
  | |- monitored _ _ _ (bind (append_precision_plugin _ _ _ _ _) _) =>
      unfold append_precision_plugin
  | |- monitored _ _ _ (bind (output_step _ _ _) _) =>
      eapply monitored_bind_appends;
      [ apply appends_output_step | by intros ? [] | intros _ ]
  | |- monitored _ _ _ (print _) => apply monitored_print
  | |- monitored _ _ _ (ret _) => apply monitored_ret
  end.

Ltac monitored_step :=
  wp_assigns; monitored_head; cbv beta zeta;
  cbn [negb next allowed stage_monitor trainer_monitor milestone];
  rewrite ?andb_true_r.

(** ** The order of the stages (lines 78-141) *)

Lemma run_passes_stages w cfg files :
  accepts stage_monitor 0%nat (trace (run w cfg files).2).
Proof.
  apply monitored_run. unfold main.
  repeat monitored_step.
Qed.


Lemma accepts_stage_seq k tr :
  accepts stage_monitor k tr →
  milestones tr = seq k (List.length (milestones tr)).
Proof.
  revert k. induction tr as [|c tr IH]; intros k; [done|].
  unfold milestones in *. simpl. intros [Hc Htr].
  destruct (milestone c) as [j|]; simpl.
  - subst j. f_equal. by apply IH.
  - by apply IH.
Qed.

Lemma milestones_snoc tr c n :
  milestones (tr ++ [c]) = seq 0 n →
  match milestone c with
  | Some j => milestones tr = seq 0 j ∧ n = S j
  | None => milestones tr = seq 0 n
  end.
Proof.
  unfold milestones. rewrite omap_app. simpl.
  destruct (milestone c) as [j|]; simpl; [|by rewrite app_nil_r].
  destruct n as [|n]; [intros H; by destruct (omap milestone tr)|].
  rewrite seq_S. simpl. intros [H1 H2]%app_inj_tail. by subst.
Qed.

Lemma stages_in_order tr n a b :
  milestones tr = seq 0 n → (a < b)%nat →
  preceded_by (λ c, milestone c = Some a) (λ c, milestone c = Some b) tr.
Proof.
  intros Hn Hab. revert n Hn.
  induction tr as [|c tr IH] using rev_ind; intros n Hn i c0 Hi Hb; [done|].
  apply milestones_snoc in Hn.
  destruct (decide (i < List.length tr)%nat) as [Hlt|Hge].
  - rewrite lookup_app_l in Hi by done.
    assert (∃ n', milestones tr = seq 0 n') as [n' Hn'].
    { destruct (milestone c); [|by eauto]. destruct Hn. by eauto. }
    destruct (IH n' Hn' i c0 Hi Hb) as (j & c' & Hj & Hc' & Ha).
    exists j, c'. split_and!; [done| |done].
    rewrite lookup_app_l; [done|lia].
  - assert (i = List.length tr) as ->.
    { apply lookup_lt_Some in Hi. rewrite length_app in Hi. simpl in Hi. lia. }
    rewrite list_lookup_middle in Hi by done. inversion Hi; subst c0.
    rewrite Hb in Hn. destruct Hn as [Htr _].
    assert (a ∈ milestones tr) as Ha.
    { rewrite Htr. apply elem_of_seq. lia. }
    apply list_elem_of_omap in Ha as (c' & Hc' & Ha).
    apply list_elem_of_lookup in Hc' as [j Hj].
    exists j, c'. split_and!; [by eapply lookup_lt_Some| |done].
    by apply lookup_app_l_Some.
Qed.

Lemma stages_once tr n i j c c' a :
  milestones tr = seq 0 n →
  tr !! i = Some c → tr !! j = Some c' →
  milestone c = Some a → milestone c' = Some a → i = j.
Proof.
  revert n i j c c'.
  induction tr as [|x tr IH] using rev_ind; intros n i j c c' Hn Hi Hj Ha Ha';
    [done|].
  apply milestones_snoc in Hn.
  assert (∀ k y, tr !! k = Some y → milestone y = Some a →
                 milestone x = Some a → False) as Hlast.
  { intros k y Hk Hy Hx. rewrite Hx in Hn. destruct Hn as [Htr _].
    assert (a ∈ milestones tr) as Hin.
    { apply list_elem_of_omap. exists y. split; [|done].
      by eapply list_elem_of_lookup_2. }
    rewrite Htr in Hin. apply elem_of_seq in Hin. lia. }
  assert (∃ n', milestones tr = seq 0 n') as [n' Hn'].
  { destruct (milestone x); [|by eauto]. destruct Hn. by eauto. }
  apply lookup_app_Some in Hi as [Hi|[Hil Hi]];
    apply lookup_app_Some in Hj as [Hj|[Hjl Hj]].
  - by eapply (IH n').
  - exfalso. apply list_lookup_singleton_Some in Hj as [_ <-]. eauto.
  - exfalso. apply list_lookup_singleton_Some in Hi as [_ <-]. eauto.
  - apply list_lookup_singleton_Some in Hi as [Hi _].
    apply list_lookup_singleton_Some in Hj as [Hj _]. lia.
Qed.

Lemma milestone_bound c j : milestone c = Some j → (j < 12)%nat.
Proof. destruct c; simpl; intros H; inversion H; lia. Qed.

(** X1: the stages passed in a run are the first [n] stages of the
    pipeline, each passed once and in the order of the source. *)
Theorem run_stage_sequence w cfg files :
  ∃ n, (n ≤ 12)%nat ∧ milestones (trace (run w cfg files).2) = seq 0 n.
Proof.
  pose proof (accepts_stage_seq 0 _ (run_passes_stages w cfg files)) as H.
  eexists. split; [|exact H].
  destruct (List.length (milestones (trace (run w cfg files).2))) as [|n] eqn:Hn;
    [lia|].
  assert (n ∈ milestones (trace (run w cfg files).2)) as Hin.
  { rewrite H. apply elem_of_seq. lia. }
  apply list_elem_of_omap in Hin as (c & _ & Hc).
  apply milestone_bound in Hc. lia.
Qed.

Lemma pipeline_stages_in_order w cfg files a b :
  (a < b)%nat →
  preceded_by (λ c, milestone c = Some a) (λ c, milestone c = Some b)
              (trace (run w cfg files).2).
Proof.
  intros Hab. eapply stages_in_order; [|done].
  apply (accepts_stage_seq 0), run_passes_stages.
Qed.

(** X2: [trainer.predict] is called only on a model that was restored,
    then frozen, then given its inference configuration. *)
Theorem predict_after_restore_freeze_configure w cfg files i :
  trace (run w cfg files).2 !! i = Some trainer_predict →
  ∃ j1 j2 j3 rp t pc conn config,
    (j1 < j2 < j3)%nat ∧ (j3 < i)%nat ∧
    trace (run w cfg files).2 !! j1 = Some (restore_model rp t pc conn) ∧
    trace (run w cfg files).2 !! j2 = Some model_freeze ∧
    trace (run w cfg files).2 !! j3 = Some (model_set_inference_config config).
Proof.
  intros Hi.
  destruct (pipeline_stages_in_order w cfg files 10 11 ltac:(lia) i _ Hi eq_refl)
    as (j3 & c3 & H3 & Hj3 & Hc3).
  destruct (pipeline_stages_in_order w cfg files 6 10 ltac:(lia) j3 _ Hj3 Hc3)
    as (j2 & c2 & H2 & Hj2 & Hc2).
  destruct (pipeline_stages_in_order w cfg files 5 6 ltac:(lia) j2 _ Hj2 Hc2)
    as (j1 & c1 & H1 & Hj1 & Hc1).
  destruct c1; try done. destruct c2; try done. destruct c3; try done.
  do 8 eexists. split_and!; [..|exact Hj1|exact Hj2|exact Hj3]; lia.
Qed.

Lemma predict_after_restore_freeze_configure_witness :
  let tr := trace (run (Sample.world 0)
                       (Sample.config (Leaf (SInt 16)) (Leaf (SInt 1)) PyNone true) ∅).2 in
  ∃ j1 j2 j3 rp t pc conn config,
    (j1 < j2 < j3)%nat ∧ (j3 < 18)%nat ∧
    tr !! j1 = Some (restore_model rp t pc conn) ∧
    tr !! j2 = Some model_freeze ∧
    tr !! j3 = Some (model_set_inference_config config).
Proof.
  apply (predict_after_restore_freeze_configure (Sample.world 0)
           (Sample.config (Leaf (SInt 16)) (Leaf (SInt 1)) PyNone true) ∅ 18%nat).
  vm_compute. reflexivity.
Defined.

(** ** The trainer of the restorations (lines 102-130) *)

Lemma run_keeps_trainer w cfg files :
  accepts trainer_monitor None (trace (run w cfg files).2).
Proof.
  apply monitored_run. unfold main.
  repeat monitored_step.
Qed.

Lemma accepts_trainer g tr :
  accepts trainer_monitor g tr →
  (is_Some g → trainers tr = []) ∧
  ∀ c t, c ∈ tr → restored_with c = Some t →
         g = Some t ∨ g = None ∧ trainers tr = [t].
Proof.
  revert g. induction tr as [|x tr IH]; intros g Hacc.
  { split; [done|]. by intros c t ?%elem_of_nil. }
  destruct Hacc as [Hx Htr]. destruct (IH _ Htr) as [IH1 IH2].
  split.
  - intros [t0 ->]. destruct x; simpl in *; try done; by apply IH1.
  - intros c t [Heq|Hc]%elem_of_cons Hu.
    + subst x. destruct c; simpl in *; try done; inversion Hu; subst; by left.
    + specialize (IH2 c t Hc Hu).
      destruct x; simpl in *; try done.
      subst g. right. split; [done|].
      destruct IH2 as [[= ->]|[? _]]; [|done]. by rewrite IH1.
Qed.

(** X3: the trainer given to a restoration, of the adapter configuration
    or of the model, is the one trainer that the run has constructed. *)
Theorem restorations_use_the_trainer w cfg files c t :
  c ∈ trace (run w cfg files).2 → restored_with c = Some t →
  trainers (trace (run w cfg files).2) = [t].
Proof.
  intros Hc Hu.
  destruct (accepts_trainer None _ (run_keeps_trainer w cfg files)) as [_ H].
  by destruct (H c t Hc Hu) as [?|[_ ?]].
Qed.

Lemma restorations_use_the_trainer_witness :
  let tr := trace (run (Sample.world 0)
                       (Sample.config (Leaf (SInt 16)) (Leaf (SInt 1)) PyNone true) ∅).2 in
  ∃ c t, c ∈ tr ∧ restored_with c = Some t ∧ trainers tr = [t].
Proof.
  intros tr.
  refine (let H := _ : ∃ c t, c ∈ tr ∧ restored_with c = Some t in
          match H with
          | ex_intro _ c (ex_intro _ t (conj Hc Ht)) =>
              ex_intro _ c (ex_intro _ t (conj Hc (conj Ht
                (restorations_use_the_trainer _ _ _ c t Hc Ht))))
          end).
  do 2 eexists. split.
  - eapply (list_elem_of_lookup_2 _ 10%nat). vm_compute. reflexivity.
  - reflexivity.
Defined.

(** ** The arguments of the calls (lines 78-138) *)

Lemma as_kwargs_inv v kw :
  as_kwargs v = inr kw →
  v = Dict kw ∧ kw !! "plugins"%string = None ∧ kw !! "strategy"%string = None.
Proof.
  destruct v as [| |m]; simpl; try done.
  destruct (m !! "plugins"%string) eqn:Hp; [done|].
  destruct (m !! "strategy"%string) eqn:Hs; [done|].
  intros H. inversion H. by subst.
Qed.

Lemma cfg_get_inv v k d x :
  cfg_get v k d = inr x → ∃ m, v = Dict m ∧ x = default d (m !! k).
Proof.
  destruct v as [| |m]; simpl; try done. intros H. inversion H. by exists m.
Qed.

(** X4: the one strategy is constructed with
    [no_ddp_communication_hook=True], [find_unused_parameters=False] and
    [cfg.model.gradient_as_bucket_view]; the [Trainer] is constructed with
    that strategy and with the entries of [cfg.trainer], which hold neither
    [plugins] nor [strategy], as its other keyword arguments. *)
Theorem trainer_built_from_cfg w cfg files t :
  new_Trainer t ∈ trace (run w cfg files).2 → trainer_from_cfg cfg t.
Proof.
  revert t.
  cut (∀ c, c ∈ trace (run w cfg files).2 →
         match c with
         | new_Trainer t => trainer_from_cfg cfg t
         | _ => True
         end).
  { intros H t Ht. apply (H _ Ht). }
  apply run_calls. unfold main.
  repeat safe_step.
  all: cbn [on_call calls]; unfold trainer_from_cfg;
    cbn [trainer_strategy trainer_kwargs attr].
  all: match goal with
       | E : as_kwargs _ = inr _ |- _ =>
           apply as_kwargs_inv in E as (-> & ? & ?)
       end.
  all: eexists; split_and!; [eassumption|reflexivity| |done..].
  all: by match goal with E : getattr _ "trainer" = _ |- _ => rewrite E end.
Qed.

Lemma trainer_built_from_cfg_witness :
  let cfg := Sample.config (Leaf (SInt 16)) (Leaf (SInt 1)) PyNone true in
  ∃ t, new_Trainer t ∈ trace (run (Sample.world 0) cfg ∅).2 ∧
       trainer_from_cfg cfg t.
Proof.
  intros cfg.
  refine (let H := _ : ∃ t, new_Trainer t ∈ trace (run (Sample.world 0) cfg ∅).2 in
          match H with
          | ex_intro _ t Ht =>
              ex_intro _ t (conj Ht (trainer_built_from_cfg _ _ _ t Ht))
          end).
  eexists. apply in_trainers. vm_compute. apply list_elem_of_here.
Defined.

(** X5: a [GradScaler] is constructed only when [cfg.trainer.precision] is
    [16]; its [init_scale], [growth_interval] and [hysteresis] are those of
    [cfg.model], or [2 ** 32], [1000] and [2] where the key is missing. *)
Theorem scaler_built_from_cfg w cfg files g :
  new_GradScaler g ∈ trace (run w cfg files).2 → scaler_from_cfg cfg g.
Proof.
  revert g.
  cut (∀ c, c ∈ trace (run w cfg files).2 →
         match c with
         | new_GradScaler g => scaler_from_cfg cfg g
         | _ => True
         end).
  { intros H g Hg. apply (H _ Hg). }
  apply run_calls. unfold main.
  repeat safe_step.
  all: cbn [on_call calls]; unfold scaler_from_cfg;
    cbn [init_scale growth_interval hysteresis].
  all: repeat match goal with
         | E : cfg_get _ _ _ = inr _ |- _ =>
             apply cfg_get_inv in E as (? & ? & ?)
         | E : py_eq _ (SInt 16) = true |- _ => apply py_eq_16 in E
         end; simplify_eq.
  all: split; [done|]. 
  all: eexists; split_and!; [eassumption|reflexivity..].
Qed.

Lemma scaler_built_from_cfg_witness :
  let cfg := Sample.config (Leaf (SInt 16)) (Leaf (SInt 1)) PyNone true in
  ∃ g, new_GradScaler g ∈ trace (run (Sample.world 0) cfg ∅).2 ∧
       scaler_from_cfg cfg g.
Proof.
  intros cfg.
  refine (let H := _ : ∃ g, new_GradScaler g ∈ trace (run (Sample.world 0) cfg ∅).2 in
          match H with
          | ex_intro _ g Hg =>
              ex_intro _ g (conj Hg (scaler_built_from_cfg _ _ _ g Hg))
          end).
  eexists. apply in_scalers. vm_compute. apply list_elem_of_here.
Defined.

(** X6: the adapter configuration is restored from
    [cfg.model.peft.restore_from_path] and the model from
    [cfg.model.restore_from_path], neither of them [None]; the connector of
    the model's restoration names the adapter path, no checkpoint path,
    and has [cfg.model.restore_from_path] as [model_extracted_dir] exactly
    when the [restore_from_path] saved in the adapter configuration is a
    directory. *)
Theorem restorations_called_from_cfg w cfg files c :
  c ∈ trace (run w cfg files).2 → restore_from_cfg w cfg c.
Proof.
  revert c. apply run_calls. unfold main.
  repeat safe_step.
  all: cbn [on_call calls restore_from_cfg].
  all: repeat match goal with
         | E : negb _ = true |- _ => apply negb_true_iff in E
         end.
  all: split_and!; try first [eassumption|reflexivity].
  all: do 2 eexists; split_and!; try first [eassumption|reflexivity].
  all: cbn [model_extracted_dir];
    match goal with E : isdir _ _ = _ |- _ => by rewrite E end.
Qed.

Lemma restorations_called_from_cfg_witness :
  let cfg := Sample.config (Leaf (SInt 16)) (Leaf (SInt 1)) PyNone true in
  ∃ c, c ∈ trace (run (Sample.world 0) cfg ∅).2 ∧
       is_Some (restored_with c) ∧
       restore_from_cfg (Sample.world 0) cfg c.
Proof.
  intros cfg.
  refine (let H := _ : ∃ c, c ∈ trace (run (Sample.world 0) cfg ∅).2 ∧
                            is_Some (restored_with c) in
          match H with
          | ex_intro _ c (conj Hc Hr) =>
              ex_intro _ c (conj Hc (conj Hr
                (restorations_called_from_cfg _ _ _ c Hc)))
          end).
  eexists. split.
  - eapply (list_elem_of_lookup_2 _ 10%nat). vm_compute. reflexivity.
  - by eexists.
Defined.



(** ** The files of a run (lines 144-149) *)

Section SafeFiles.

Variable w : World.
Variable I : invariant.




End SafeFiles.





(** ** The output step on any response (lines 143-152) *)

Lemma bind_raises {A B} (m : M A) (f : A → M B) s e s' :
  m s = (inl e, s') → bind m f s = (inl e, s').
Proof. unfold bind. by intros ->. Qed.

Lemma for_each_app {A} (l1 l2 : list A) (body : A → M ()) s :
  for_each (l1 ++ l2) body s =
  bind (for_each l1 body) (λ _, for_each l2 body) s.
Proof.
  revert s. induction l1 as [|a l1 IH]; intros s; [reflexivity|].
  cbn [app for_each]. unfold bind at 1 2 3.
  destruct (body a s) as [[e|[]] s1]; [reflexivity|].
  rewrite IH. reflexivity.
Qed.

Lemma file_lines_render sentences :
  file_lines EmptyString (render_lines sentences) =
  map newlines_to_spaces sentences.
Proof.
  induction sentences as [|x l IH]; [done|]. simpl.
  by rewrite file_lines_line, IH by apply newlines_to_spaces_clean.
Qed.

(** The whole effect of the output step that writes a file. *)
Lemma output_step_returns w cfg p response sentences s :
  attr ["inference"; "outfile_path"]%string cfg = inr (Leaf (SStr p)) →
  all_sentences response = Some sentences →
  (∀ c, is_file_call c → raises w c = None) →
  ∃ tr,
    output_step w cfg response s =
    (inr (),
     State tr
       (stdout s ++ [out_str stars; out_str ("predictions saved to " ++ p)%string])
       (<[p := render_lines sentences]> (fs s))).
Proof.
  intros Hp Hall Hok. unfold output_step.
  erewrite bind_returns by reflexivity.
  rewrite Hp. erewrite bind_returns by reflexivity. cbn [negb is_None].
  erewrite bind_returns; last first.
  { unfold open_w. erewrite bind_returns; [reflexivity|].
    unfold ext. erewrite bind_returns by reflexivity.
    by rewrite Hok. }
  cbn [trace stdout fs].
  edestruct (write_batches w p response sentences
               (State (trace s ++ [file_open p]) (stdout s ++ [out_str stars])
                      (<[p := EmptyString]> (fs s))) EmptyString Hok Hall)
    as [tr Htr]; [by apply lookup_insert_eq|].
  erewrite bind_returns by exact Htr.
  erewrite bind_returns by reflexivity.
  exists tr. unfold print. cbn [fst snd fs stdout trace format_path].
  by rewrite insert_insert_eq, <- app_assoc.
Qed.

(** X9: with an output path and any response whose batches all have
    sentences, the output step returns; the file at the path, whatever it
    held before, then holds one line for every sentence of every batch, in
    batch-then-item order, each with its newlines turned into spaces; and
    the step has printed the stars and the path, not the response. *)
Theorem output_step_one_line_per_sentence w cfg p response sentences s :
  attr ["inference"; "outfile_path"]%string cfg = inr (Leaf (SStr p)) →
  all_sentences response = Some sentences →
  (∀ c, is_file_call c → raises w c = None) →
  (output_step w cfg response s).1 = inr () ∧
  (∃ text, fs (output_step w cfg response s).2 = <[p := text]> (fs s) ∧
           file_lines EmptyString text = map newlines_to_spaces sentences) ∧
  stdout (output_step w cfg response s).2 =
    (stdout s ++ [out_str stars; out_str ("predictions saved to " ++ p)%string])%list.
Proof.
  intros Hp Hall Hok.
  destruct (output_step_returns w cfg p response sentences s Hp Hall Hok)
    as [tr ->].
  split_and!; [done| |done].
  eexists. split; [done|]. apply file_lines_render.
Qed.

Lemma output_step_one_line_per_sentence_witness :
  let w := Sample.world 0 in
  let cfg := Sample.config (Leaf (SInt 16)) (Leaf (SInt 1)) (Leaf (SStr "out.txt")) true in
  let s := State [] [] (<["out.txt"%string := "stale"%string]> ∅) in
  let sentences := ["alpha"; ("be" ++ NL ++ "ta"); "gamma"; "delta"]%string in
  (output_step w cfg Sample.response s).1 = inr () ∧
  (∃ text, fs (output_step w cfg Sample.response s).2 =
             <["out.txt"%string := text]> (fs s) ∧
           file_lines EmptyString text = map newlines_to_spaces sentences) ∧
  stdout (output_step w cfg Sample.response s).2 =
    (stdout s ++ [out_str stars;
                  out_str ("predictions saved to " ++ "out.txt")%string])%list.
Proof.
  apply (output_step_one_line_per_sentence (Sample.world 0)
           (Sample.config (Leaf (SInt 16)) (Leaf (SInt 1)) (Leaf (SStr "out.txt")) true)
           "out.txt" Sample.response).
  - vm_compute. reflexivity.
  - vm_compute. reflexivity.
  - intros c _. reflexivity.
Defined.

(** X10: a batch without the key [sentences] makes the output step raise
    [KeyError]; the file then holds the lines of the batches before it
    (none of those after it), and the path is not printed. *)
Theorem output_step_stops_at_batch_without_sentences
    w cfg p before b after sentences s :
  attr ["inference"; "outfile_path"]%string cfg = inr (Leaf (SStr p)) →
  all_sentences before = Some sentences →
  b !! "sentences"%string = None →
  (∀ c, is_file_call c → raises w c = None) →
  (output_step w cfg (before ++ b :: after) s).1 = inl (KeyError "sentences") ∧
  fs (output_step w cfg (before ++ b :: after) s).2 =
    <[p := render_lines sentences]> (fs s) ∧
  stdout (output_step w cfg (before ++ b :: after) s).2 =
    (stdout s ++ [out_str stars])%list.
Proof.
  intros Hp Hall Hb Hok. unfold output_step.
  erewrite bind_returns by reflexivity.
  rewrite Hp. erewrite bind_returns by reflexivity. cbn [negb is_None].
  erewrite bind_returns; last first.
  { unfold open_w. erewrite bind_returns; [reflexivity|].
    unfold ext. erewrite bind_returns by reflexivity.
    by rewrite Hok. }
  cbn [trace stdout fs].
  edestruct (write_batches w p before sentences
               (State (trace s ++ [file_open p]) (stdout s ++ [out_str stars])
                      (<[p := EmptyString]> (fs s))) EmptyString Hok Hall)
    as [tr Htr]; [by apply lookup_insert_eq|].
  erewrite bind_raises; last first.
  { rewrite for_each_app. erewrite bind_returns by exact Htr.
    cbn [for_each]. erewrite bind_raises; [reflexivity|].
    erewrite bind_raises; [reflexivity|].
    unfold getitem. by rewrite Hb. }
  cbn [fst snd fs stdout]. by rewrite insert_insert_eq.
Qed.

Lemma output_step_stops_at_batch_without_sentences_witness :
  let w := Sample.world 0 in
  let cfg := Sample.config (Leaf (SInt 16)) (Leaf (SInt 1)) (Leaf (SStr "out.txt")) true in
  let b : batch := {[ "tokens"%string := ["t"%string] ]} in
  let s := State [] [] ∅ in
  let sentences := ["alpha"; ("be" ++ NL ++ "ta"); "gamma"; "delta"]%string in
  (output_step w cfg (Sample.response ++ b :: Sample.response) s).1 =
    inl (KeyError "sentences") ∧
  fs (output_step w cfg (Sample.response ++ b :: Sample.response) s).2 =
    <["out.txt"%string := render_lines sentences]> (fs s) ∧
  stdout (output_step w cfg (Sample.response ++ b :: Sample.response) s).2 =
    (stdout s ++ [out_str stars])%list.
Proof.
  apply (output_step_stops_at_batch_without_sentences (Sample.world 0)
           (Sample.config (Leaf (SInt 16)) (Leaf (SInt 1)) (Leaf (SStr "out.txt")) true)
           "out.txt" Sample.response).
  - vm_compute. reflexivity.
  - vm_compute. reflexivity.
  - vm_compute. reflexivity.
  - intros c _. reflexivity.
Defined.

(** X11: a run of the coordinating process that completes with an output
    path has the lines of the predictions in the file at that path, and
    has printed the stars, the path and the stars: when the file is
    written the response itself is not printed. *)
Theorem coordinator_run_output w cfg files p sentences :
  global_rank w = 0 →
  attr ["inference"; "outfile_path"]%string cfg = inr (Leaf (SStr p)) →
  all_sentences (predictions w) = Some sentences →
  (∀ c, is_file_call c → raises w c = None) →
  (run w cfg files).1 = inr () →
  fs (run w cfg files).2 = <[p := render_lines sentences]> files ∧
  stdout (run w cfg files).2 =
    [out_str stars; out_str ("predictions saved to " ++ p)%string; out_str stars].
Proof.
  intros Hrank Hp Hall Hok.
  apply (run_wp w cfg files
    (λ r s, r = inr () →
       fs s = <[p := render_lines sentences]> files ∧
       stdout s = [out_str stars;
                   out_str ("predictions saved to " ++ p)%string;
                   out_str stars])).
  unfold main. rewrite Hrank.
  repeat wp_step.
  all: try by intros.
  all: match goal with
       | |- wp (output_step ?w ?c ?r) _ ?s =>
           assert (attr ["inference"; "outfile_path"]%string c =
                   inr (Leaf (SStr p))) as Hp' by (by wp_assigns);
           destruct (output_step_returns w c p r sentences s Hp' Hall Hok)
             as [tr Htr];
           unfold wp; rewrite Htr; by apply wp_print
       end.
Qed.

Lemma coordinator_run_output_witness :
  let w := Sample.world 0 in
  let cfg := Sample.config (Leaf (SInt 16)) (Leaf (SInt 1)) (Leaf (SStr "out.txt")) true in
  let sentences := ["alpha"; ("be" ++ NL ++ "ta"); "gamma"; "delta"]%string in
  fs (run w cfg ∅).2 = <["out.txt"%string := render_lines sentences]> ∅ ∧
  stdout (run w cfg ∅).2 =
    [out_str stars; out_str ("predictions saved to " ++ "out.txt")%string;
     out_str stars].
Proof.
  apply (coordinator_run_output (Sample.world 0)
           (Sample.config (Leaf (SInt 16)) (Leaf (SInt 1)) (Leaf (SStr "out.txt")) true)
           ∅ "out.txt").
  - reflexivity.
  - vm_compute. reflexivity.
  - vm_compute. reflexivity.
  - intros c _. reflexivity.
  - vm_compute. reflexivity.
Defined.

(** ** The line of a sentence (line 148) *)

Lemma newlines_to_spaces_length s :
  String.length (newlines_to_spaces s) = String.length s.
Proof. induction s as [|c s IH]; simpl; [done|]. by rewrite IH. Qed.

Lemma newlines_to_spaces_id s :
  has_newline s = false → newlines_to_spaces s = s.
Proof.
  induction s as [|c s IH]; simpl; [done|].
  intros [Hc Hs]%orb_false_iff. by rewrite Hc, IH.
Qed.

(** X12: the line written for a sentence is the sentence with every
    newline replaced by one space: it has the length of the sentence (so
    newlines that follow each other are not merged) and no newline. *)
Theorem flatten_sentence_replaces_newlines s :
  flatten_sentence s = newlines_to_spaces s ∧
  String.length (flatten_sentence s) = String.length s ∧
  has_newline (flatten_sentence s) = false.
Proof.
  rewrite flatten_sentence_spec. split_and!; [done|..].
  - apply newlines_to_spaces_length.
  - apply newlines_to_spaces_clean.
Qed.

(** X13: a sentence without newline is written as it is. *)
Theorem flatten_sentence_without_newline s :
  has_newline s = false → flatten_sentence s = s.
Proof. intros H. by rewrite flatten_sentence_spec, newlines_to_spaces_id. Qed.

Lemma flatten_sentence_without_newline_witness :
  flatten_sentence "gamma delta" = "gamma delta"%string.
Proof. apply flatten_sentence_without_newline. reflexivity. Defined.

(** ** Failures of the set-up (lines 72-102) *)

(** X14: when logging does not fail, a base path that is [None] makes
    [main] raise [AssertionError], whatever the adapter path is (the first
    assertion comes first); so does an adapter path that is [None] when
    the base path is there. *)
Theorem missing_restore_path_raises_AssertionError w cfg files :
  (∀ c, is_logging c → raises w c = None) →
  attr ["model"; "restore_from_path"]%string cfg = inr PyNone ∨
  (∃ v, attr ["model"; "restore_from_path"]%string cfg = inr v ∧
        is_None v = false) ∧
  attr ["model"; "peft"; "restore_from_path"]%string cfg = inr PyNone →
  (run w cfg files).1 = inl AssertionError.
Proof.
  intros Hlog H.
  apply (run_wp w cfg files (λ r _, r = inl AssertionError)).
  unfold main.
  do 3 (wp_step; [by rewrite Hlog in * by exact I|]).
  destruct H as [H|[(v & Hv & Hn) H]].
  - wp_step. by wp_step.
  - wp_step. rewrite Hn. wp_step. wp_step. by wp_step.
Qed.

Lemma missing_restore_path_raises_AssertionError_witness :
  let cfg := Dict (<["model"%string :=
               Dict (<["restore_from_path"%string := PyNone]> ∅)]> ∅) in
  (run (Sample.world 0) cfg ∅).1 = inl AssertionError.
Proof.
  apply missing_restore_path_raises_AssertionError.
  - intros c _. reflexivity.
  - left. vm_compute. reflexivity.
Defined.

Lemma kwargs_clash cfg v kw k x :
  getattr cfg "trainer" = inr v → as_kwargs v = inr kw →
  attr ["trainer"; k]%string cfg = inr x →
  k = "strategy"%string ∨ k = "plugins"%string → False.
Proof.
  intros Hv (-> & Hp & Hs)%as_kwargs_inv. simpl. rewrite Hv. simpl.
  intros Hk [->| ->]; [rewrite Hs in Hk|rewrite Hp in Hk]; done.
Qed.

(** X15: when [cfg.trainer] has a key [strategy] or [plugins], which the
    call of [Trainer] passes itself, [main] raises before a [Trainer] is
    constructed. *)
Theorem trainer_keys_clash w cfg files k x :
  k = "strategy"%string ∨ k = "plugins"%string →
  attr ["trainer"; k]%string cfg = inr x →
  (∃ e, (run w cfg files).1 = inl e) ∧ trainers (trace (run w cfg files).2) = [].
Proof.
  intros Hk Hx.
  apply (run_wp w cfg files
    (λ r s, (∃ e, r = inl e) ∧ trainers (trace s) = [])).
  unfold main.
  repeat (wp_step;
          try solve [split; [by eexists|reflexivity]
                    |exfalso; eapply (kwargs_clash cfg _ _ k x);
                     [eassumption|eassumption|exact Hx|exact Hk]]).
Qed.

Lemma trainer_keys_clash_witness :
  let cfg :=
    Dict (<["model"%string :=
             Dict (<["restore_from_path"%string := Leaf (SStr "base.nemo")]>
                   (<["peft"%string :=
                        Dict (<["restore_from_path"%string := Leaf (SStr "lora.nemo")]> ∅)]>
                   (<["gradient_as_bucket_view"%string := Leaf (SBool false)]> ∅)))]>
          (<["trainer"%string :=
               Dict (<["precision"%string := Leaf (SInt 32)]>
                     (<["strategy"%string := Leaf (SStr "ddp")]> ∅))]> ∅)) in
  (∃ e, (run (Sample.world 0) cfg ∅).1 = inl e) ∧
  trainers (trace (run (Sample.world 0) cfg ∅).2) = [].
Proof.
  eapply (trainer_keys_clash _ _ _ "strategy").
  - by left.
  - vm_compute. reflexivity.
Defined.

(** X16: with precision [16], a [cfg.model.pipeline_model_parallel_size]
    that is missing or is no number makes [main] raise when nothing but
    the strategy has been constructed: no loss scaler, plugin or trainer. *)
Theorem pipeline_size_needed_for_16 w cfg files :
  attr ["trainer"; "precision"]%string cfg = inr (Leaf (SInt 16)) →
  (∀ v b, attr ["model"; "pipeline_model_parallel_size"]%string cfg = inr v →
          py_gt v 1 ≠ inr b) →
  (∃ e, (run w cfg files).1 = inl e) ∧
  only_strategy_constructed (trace (run w cfg files).2).
Proof.
  intros Hprec Hpp.
  apply (run_wp w cfg files
    (λ r s, (∃ e, r = inl e) ∧ only_strategy_constructed (trace s))).
  unfold main.
  repeat (wp_step;
          try solve [split; [by eexists|];
                     unfold only_strategy_constructed;
                     repeat constructor; simpl; (done || eauto)
                    |exfalso; eapply Hpp; [reflexivity|eassumption]
                    |exfalso; eapply Hpp; eassumption]).
Qed.

Lemma pipeline_size_needed_for_16_witness :
  let cfg := Sample.config (Leaf (SInt 16)) PyNone PyNone true in
  (∃ e, (run (Sample.world 0) cfg ∅).1 = inl e) ∧
  only_strategy_constructed (trace (run (Sample.world 0) cfg ∅).2).
Proof.
  apply pipeline_size_needed_for_16.
  - vm_compute. reflexivity.
  - intros v b H. vm_compute in H. inversion H. subst. discriminate.
Defined.

(** ** What the patches leave alone (lines 108-117) *)

(** X17: the adapter configuration given to the restoration of the model
    is the one saved in the adapter artifact on every path that does not
    pass through [precision] or [data.test_ds]. *)
Theorem adapter_config_otherwise_as_saved w cfg files rp t pc conn :
  restore_model rp t pc conn ∈ trace (run w cfg files).2 →
  adapter_config_patched w cfg pc.
Proof.
  revert rp t pc conn.
  cut (∀ c, c ∈ trace (run w cfg files).2 →
         match c with
         | restore_model _ _ pc _ => adapter_config_patched w cfg pc
         | _ => True
         end).
  { intros H rp t pc conn Hc. apply (H _ Hc). }
  apply run_calls. unfold main.
  repeat safe_step.
  all: cbn [on_call calls]; unfold adapter_config_patched.
  all: eexists; split; [first [eassumption|reflexivity]|].
  all: intros q H1 H2.
  all: repeat match goal with
         | E : assign _ _ _ = inr ?v |- context [attr _ ?v] =>
             rewrite (attr_assign_diverge _ _ _ _ _ E) by done
         end; done.
Qed.

Lemma adapter_config_otherwise_as_saved_witness :
  let cfg := Sample.config (Leaf (SInt 16)) (Leaf (SInt 1)) PyNone true in
  ∃ rp t pc conn,
    restore_model rp t pc conn ∈ trace (run (Sample.world 0) cfg ∅).2 ∧
    adapter_config_patched (Sample.world 0) cfg pc.
Proof.
  intros cfg.
  refine (let H := _ : ∃ rp t pc conn,
                         restore_model rp t pc conn ∈
                           trace (run (Sample.world 0) cfg ∅).2 in
          match H with
          | ex_intro _ rp (ex_intro _ t (ex_intro _ pc (ex_intro _ conn Hc))) =>
              ex_intro _ rp (ex_intro _ t (ex_intro _ pc (ex_intro _ conn
                (conj Hc (adapter_config_otherwise_as_saved _ _ _ rp t pc conn Hc)))))
          end).
  do 4 eexists. eapply (list_elem_of_lookup_2 _ 10%nat).
  vm_compute. reflexivity.
Defined.



(** ** A run that completes (lines 69-153) *)

Lemma milestones_file_calls evs :
  Forall is_file_call evs → milestones evs = [].
Proof.
  induction 1 as [|c evs Hc _ IH]; [done|].
  unfold milestones in *. by destruct c.
Qed.

(** X19: a run that returns has gone through all twelve stages, each
    once and in the order of the source: strategy, trainer, adapter
    configuration, connector, directory test, model, freeze, dataset,
    loader, inference configuration (resolved, then set) and predict. *)
Theorem completed_run_passes_every_stage w cfg files :
  (run w cfg files).1 = inr () →
  milestones (trace (run w cfg files).2) = seq 0 12.
Proof.
  apply (run_wp w cfg files
    (λ r s, r = inr () → milestones (trace s) = seq 0 12)).
  unfold main.
  repeat wp_step.
  all: try by intros.
  all: eapply wp_appends; [apply appends_output_step|].
  all: intros [e|[]] s' evs Htr Hev; [by intros|].
  all: apply wp_print; intros _; cbn [trace]; rewrite Htr.
  all: pose proof (milestones_file_calls evs Hev) as Hm.
  all: unfold milestones in *; by rewrite omap_app, Hm, app_nil_r.
Qed.

Lemma completed_run_passes_every_stage_witness :
  let cfg := Sample.config (Leaf (SInt 16)) (Leaf (SInt 1)) (Leaf (SStr "out.txt")) true in
  milestones (trace (run (Sample.world 0) cfg ∅).2) = seq 0 12.
Proof.
  apply completed_run_passes_every_stage. vm_compute. reflexivity.
Defined.

(** ** Failures of the collaborators (lines 69-153) *)

Section Uncaught.

Variable w : World.

Lemma uncaught_ret {A} (a : A) : uncaught w (ret a).
Proof. intros s Hs. by left. Qed.

Lemma uncaught_throw {A} e : uncaught w (@throw A e).
Proof. intros s Hs. by left. Qed.

Lemma uncaught_lift {A} (r : exn + A) : uncaught w (lift r).
Proof. destruct r; [apply uncaught_throw|apply uncaught_ret]. Qed.

Lemma uncaught_assert b : uncaught w (assert b).
Proof. destruct b; [apply uncaught_ret|apply uncaught_throw]. Qed.

Lemma uncaught_print x : uncaught w (print x).
Proof. intros s Hs. by left. Qed.

Lemma uncaught_ext c : uncaught w (ext w c).
Proof.
  intros s Hs. unfold ext, bind, record. simpl.
  destruct (raises w c) as [e|] eqn:E; simpl.
  - right. by exists (trace s), c, e.
  - left. apply Forall_app. split; [done|]. by constructor.
Qed.

Lemma uncaught_bind {A B} (m : M A) (k : A → M B) :
  uncaught w m → (∀ a, uncaught w (k a)) → uncaught w (bind m k).
Proof.
  intros Hm Hk s Hs. unfold bind.
  destruct (Hm s Hs) as [H|(tr & c & e & Htr & Hcl & Hr & Hres)];
    destruct (m s) as [[e'|a] s'] eqn:E; simpl in *.
  - by left.
  - by apply Hk.
  - right. simplify_eq. by exists tr, c, e.
  - done.
Qed.

Lemma uncaught_for_each {A} (l : list A) (body : A → M unit) :
  (∀ x, uncaught w (body x)) → uncaught w (for_each l body).
Proof.
  intros Hb. induction l as [|x l IH]; simpl; [apply uncaught_ret|].
  apply uncaught_bind; [apply Hb|done].
Qed.

Lemma uncaught_open_w p : uncaught w (open_w w p).
Proof.
  destruct p as [[]| |]; simpl; try apply uncaught_throw.
  apply uncaught_bind; [apply uncaught_ext|].
  intros _ st Hs. by left.
Qed.

Lemma uncaught_write p d : uncaught w (write w p d).
Proof.
  apply uncaught_bind; [apply uncaught_ext|].
  intros _ s Hs. by left.
Qed.

End Uncaught.

Ltac uncaught_step :=
  cbv zeta;
  lazymatch goal with
  | |- uncaught _ (bind _ _) => apply uncaught_bind; [|intros ?]
  | |- uncaught _ (ext _ _) => apply uncaught_ext
  | |- uncaught _ (lift _) => apply uncaught_lift
  | |- uncaught _ (assert _) => apply uncaught_assert
  | |- uncaught _ (print _) => apply uncaught_print
  | |- uncaught _ (ret _) => apply uncaught_ret
  | |- uncaught _ (throw _) => apply uncaught_throw
  | |- uncaught _ (open_w _ _) => apply uncaught_open_w
  | |- uncaught _ (write _ _ _) => apply uncaught_write
  | |- uncaught _ (for_each _ _) => apply uncaught_for_each; intros ?
  | |- uncaught _ (if ?b then _ else _) => destruct b
  | |- uncaught _ (append_precision_plugin _ _ _ _ _) =>
      unfold append_precision_plugin
  | |- uncaught _ (output_step _ _ _) => unfold output_step
  end.

Lemma main_catches_nothing w cfg : uncaught w (main w cfg).
Proof. unfold main. repeat uncaught_step. Qed.

(** X20: no failure of a collaborator is caught: a call that raises is the
    last call of the run, and the run raises its exception. *)
Theorem collaborator_failure_aborts_run w cfg files c e :
  c ∈ trace (run w cfg files).2 →
  raises w c = Some e →
  (run w cfg files).1 = inl e ∧ last (trace (run w cfg files).2) = Some c.
Proof.
  intros Hc Hr. unfold run in *.
  destruct (main_catches_nothing w cfg (State [] [] files))
    as [H|(tr & c' & e' & Htr & Hcl & Hr' & Hres)]; [by constructor|..].
  - unfold returned in H. rewrite Forall_forall in H.
    apply H in Hc. congruence.
  - rewrite Htr in *. apply elem_of_app in Hc as [Hc|Hc].
    + unfold returned in Hcl. rewrite Forall_forall in Hcl.
      apply Hcl in Hc. congruence.
    + apply list_elem_of_singleton in Hc as ->.
      rewrite last_snoc. split; congruence.
Qed.

Lemma collaborator_failure_aborts_run_witness :
  let w := predict_raises (Sample.world 0) (External "out of memory") in
  let cfg := Sample.config (Leaf (SInt 16)) (Leaf (SInt 1)) (Leaf (SStr "out.txt")) true in
  (run w cfg ∅).1 = inl (External "out of memory") ∧
  last (trace (run w cfg ∅).2) = Some trainer_predict.
Proof.
  intros w cfg.
  apply (collaborator_failure_aborts_run w cfg ∅ trainer_predict).
  - eapply (list_elem_of_lookup_2 _ 18%nat). vm_compute. reflexivity.
  - reflexivity.
Defined.
